(** * The Student Grade Analyzer (lecture_3/student_grade_analyzer.py)

    A shallow embedding of the console program and the proofs of its
    specification.

    Modelling conventions.
    - A Python [str] is a Rocq [string]; the model covers ASCII text:
      [str.lower] maps the letters A..Z, [str.strip] removes the ASCII
      characters for which [str.isspace] holds, every other character is
      kept as it is.
    - A Python [int] is a [Z].  A Python [float] is a binary64 number.
      A finite one is given by its exact value, a rational [Q]; the
      results of the operations are rounded to the nearest binary64
      number, ties to even, with the Standard Library's specification of
      IEEE 754 ([SpecFloat]), and a quotient of integers too large for a
      float raises [OverflowError].  A message carries the float
      that is printed; [render] gives its text, with the [:.1f] of the
      format strings.
    - The program talks to its user through [input] and [print].  The
      state of a run is the registry (the list [students] created by
      [main] and passed to every operation), the lines still to be read
      on the standard input and the messages printed so far, one
      constructor of [Out] per [print] statement.  The prompt given to
      [input] is not recorded.
    - Every record of the registry is a dict of its own; the reference
      that [find_student] hands out is the position of the record. *)

From Stdlib Require Import Ascii QArith Qabs Qround SpecFloat DecimalString.
From stdpp Require Import base option list numbers strings.

Local Open Scope Z_scope.

(** ** Python strings *)

Module Str.

(** [str.isspace] on one ASCII character: TAB, LF, VT, FF, CR, the four
    separators FS, GS, RS, US and the space. *)
Definition isspace (c : ascii) : bool :=
  let n := Z.of_nat (nat_of_ascii c) in
  ((9 <=? n) && (n <=? 13)) || ((28 <=? n) && (n <=? 32)).

Definition lower_char (c : ascii) : ascii :=
  let n := nat_of_ascii c in
  if ((65 <=? n) && (n <=? 90))%nat then ascii_of_nat (n + 32) else c.

(** [s.lower()] *)
Fixpoint lower (s : string) : string :=
  match s with
  | EmptyString => EmptyString
  | String c r => String (lower_char c) (lower r)
  end.

(** [s.lstrip()] *)
Fixpoint lstrip (s : string) : string :=
  match s with
  | EmptyString => EmptyString
  | String c r => if isspace c then lstrip r else s
  end.

(** [s.rstrip()]: a character is dropped when it is a space and all
    that follows it is dropped too. *)
Fixpoint rstrip (s : string) : string :=
  match s with
  | EmptyString => EmptyString
  | String c r =>
      match rstrip r with
      | EmptyString => if isspace c then EmptyString else String c EmptyString
      | r' => String c r'
      end
  end.

(** [s.strip()] *)
Definition strip (s : string) : string := rstrip (lstrip s).

(** The value of a decimal digit. *)
Definition digit (c : ascii) : option Z :=
  let n := Z.of_nat (nat_of_ascii c) in
  if (48 <=? n) && (n <=? 57) then Some (n - 48) else None.

(** The digits of an integer literal given to [int]: decimal digits,
    with single underscores allowed between two digits.  [prev] tells
    whether the character just read was a digit. *)
Fixpoint digits (acc : Z) (prev : bool) (s : string) : option Z :=
  match s with
  | EmptyString => if prev then Some acc else None
  | String c r =>
      if decide (c = "_"%char) then
        if prev then digits acc false r else None
      else
        match digit c with
        | Some d => digits (10 * acc + d) true r
        | None => None
        end
  end.

(** [int(s)] in base 10: surrounding white space is ignored, one sign
    is allowed; [None] stands for [ValueError].  The bound that an
    interpreter may set on the number of digits is not modelled. *)
Definition int (s : string) : option Z :=
  match strip s with
  | String "+" r => digits 0 false r
  | String "-" r => Z.opp <$> digits 0 false r
  | r => digits 0 false r
  end.

End Str.

(** ** The data model *)

(** [class Student(TypedDict)]: a name and the list of the grades. *)
Record Student := mkStudent { name : string; grades : list Z }.

Global Instance Student_eq_dec : EqDecision Student.
Proof. solve_decision. Defined.

(** A float: a finite binary64 number, given by its exact value, or an
    infinity.  No operation of the program gives a NaN. *)
Inductive xfloat :=
  | Finite (q : Q)
  | Infinite (negative : bool).

(** One constructor per [print] statement of the program. *)
Inductive Out :=
  | NameEmpty                          (* Student name cannot be empty. *)
  | AlreadyExists (n : string)         (* Student '{name}' already exists. *)
  | Added (n : string)                 (* Student '{name}' added. *)
  | AddStudentFirst                    (* No students found. Please add a student first. *)
  | NotFound (n : string)              (* Student '{name}' not found. *)
  | InvalidNumber                      (* Invalid input. Please enter a number. *)
  | InvalidGrade                       (* Invalid grade. Please enter a value between 0 and 100. *)
  | GradesUpdated (n : string) (k : Z) (* Grades updated for '{name}'. ({k} grade(s) added) *)
  | NoStudentsToReport                 (* No students to report. *)
  | ReportHeader                       (* --- Student Report --- *)
  | AverageNA (n : string)             (* {name}'s average grade is N/A. *)
  | Average (n : string) (avg : Q)     (* {name}'s average grade is {avg:.1f}. *)
  | NoGradesYet                        (* No grades have been added yet. *)
  | Rule                               (* ------------------------ *)
  | MaxAverage (avg : Q)               (* Max Average: {max_avg:.1f} *)
  | MinAverage (avg : Q)               (* Min Average: {min_avg:.1f} *)
  | OverallAverage (avg : xfloat)      (* Overall Average: {overall_avg:.1f} *)
  | NoStudentsFound                    (* No students found. *)
  | NoGradesAvailable                  (* No grades available to determine top performer. *)
  | TopStudent (n : string) (avg : Q)  (* The student with the highest average is {name} with a grade of {top_avg:.1f}. *)
  | Menu                               (* the six lines of print_menu *)
  | ChoiceNotNumber                    (* Invalid choice. Please enter a number from 1 to 5. *)
  | ChoiceOutOfRange                   (* Invalid choice. Please select a number from 1 to 5. *)
  | Exiting.                           (* Exiting program. *)

(** The state of a run. *)
Record World := mkWorld {
  students : list Student;
  stdin : list string;
  stdout : list Out
}.

(** ** Computations that read, print, mutate and raise *)

(** The exceptions the program can meet. *)
Inductive exn := EOFError | ValueError | ZeroDivisionError | OverflowError.

(** How a computation ends: with a value, with an exception, or, for a
    loop run with too little fuel, not at all. *)
Inductive outcome (A : Type) :=
  | Return (a : A)
  | Raise (e : exn)
  | OutOfFuel.
Arguments Return {A} a.
Arguments Raise {A} e.
Arguments OutOfFuel {A}.

(** A computation takes the state and gives the state it leaves behind
    with its outcome; what was mutated or printed before an exception
    stays. *)
Definition IO (A : Type) : Type := World → World * outcome A.

Global Instance IO_ret : MRet IO := λ A a w, (w, Return a).

Global Instance IO_bind : MBind IO := λ A B f m w,
  match m w with
  | (w', Return a) => f a w'
  | (w', Raise e) => (w', Raise e)
  | (w', OutOfFuel) => (w', OutOfFuel)
  end.

Definition raise {A} (e : exn) : IO A := λ w, (w, Raise e).

(** [input(...)]: the next line of the standard input, [EOFError] when
    there is none. *)
Definition input : IO string := λ w,
  match stdin w with
  | [] => (w, Raise EOFError)
  | line :: rest => (mkWorld (students w) rest (stdout w), Return line)
  end.

(** [print(...)] *)
Definition print (o : Out) : IO unit := λ w,
  (mkWorld (students w) (stdin w) (stdout w ++ [o]), Return tt).

(** Reading the registry. *)
Definition get_students : IO (list Student) := λ w, (w, Return (students w)).

(** [students.append(s)] *)
Definition append_student (s : Student) : IO unit := λ w,
  (mkWorld (students w ++ [s]) (stdin w) (stdout w), Return tt).

(** [student["grades"].append(grade)] for the record at position [i]. *)
Definition add_grade (grade : Z) (s : Student) : Student :=
  mkStudent (name s) (grades s ++ [grade]).

Definition append_grade (i : nat) (grade : Z) : IO unit := λ w,
  (mkWorld (alter (add_grade grade) i (students w)) (stdin w) (stdout w),
   Return tt).

(** [student["grades"]] and [student["name"]] for the record at position
    [i], as they are at the time of the call. *)
Definition grades_at (i : nat) : IO (list Z) := λ w,
  (w, Return (from_option grades [] (students w !! i))).

Definition name_at (i : nat) : IO string := λ w,
  (w, Return (from_option name "" (students w !! i))).

(** [while True: body], where the body says whether it ends with
    [break] or goes round again. *)
Inductive ctl := Continue | Break.

Fixpoint while_fuel (fuel : nat) (body : IO ctl) : IO unit :=
  match fuel with
  | O => λ w, (w, OutOfFuel)
  | S fuel' =>
      c ← body;
      match c with
      | Break => mret tt
      | Continue => while_fuel fuel' body
      end
  end.

(** Both loops of the program read a line in every round, so one round
    more than there are lines is fuel enough. *)
Definition while_true (body : IO ctl) : IO unit := λ w,
  while_fuel (S (length (stdin w))) body w.

(** ** Python arithmetic and builtins *)

(** *** Binary64 numbers *)

Module Float.

(** An integer as a mantissa with the exponent 0. *)
Definition of_Z (z : Z) : spec_float :=
  match z with
  | Z0 => S754_zero false
  | Zpos p => S754_finite false p 0
  | Zneg p => S754_finite true p 0
  end.

(** The binary64 number nearest to the rational [q], ties to even: the
    correctly rounded quotient of its numerator by its denominator, an
    infinity when [q] is beyond the range of the floats. *)
Definition nearest (q : Q) : spec_float :=
  SFdiv 53 1024 (of_Z (Qnum q)) (of_Z (Zpos (Qden q))).

(** The exact value of a finite binary64 number, as a reduced fraction. *)
Definition value (x : spec_float) : Q :=
  match x with
  | S754_finite s m e =>
      Qred ((if s then -1 else 1) * inject_Z (Zpos m) * Qpower 2 e)
  | _ => 0
  end.

(** [q] rounded to a float. *)
Definition round (q : Q) : Q := value (nearest q).

(** The rationals that round to an infinity: the largest float is
    2^1024 - 2^971, and from half a unit in the last place above it,
    2^1024 - 2^970, the rounding overflows. *)
Definition too_large (q : Q) : bool :=
  Qle_bool (inject_Z (2 ^ 1024 - 2 ^ 970)) (Qabs q).

(** The result of a float operation whose exact result is [q]. *)
Definition result (q : Q) : xfloat :=
  if too_large q then Infinite (negb (Qle_bool 0 q)) else Finite (round q).

End Float.

(** [sum(l)] on integers. *)
Definition sum_int (l : list Z) : Z := foldl Z.add 0 l.

(** [a / b] on integers, true division: the quotient correctly rounded
    to a float, [ZeroDivisionError] for a zero divisor, [OverflowError]
    when the quotient is too large for a float. *)
Definition true_div (a b : Z) : IO Q :=
  if decide (b = 0) then raise ZeroDivisionError
  else
    let q := (inject_Z a / inject_Z b)%Q in
    if Float.too_large q then raise OverflowError
    else mret (Float.round q).

(** [x + y] on floats: an overflow gives an infinity and raises
    nothing. *)
Definition float_add (x : xfloat) (y : Q) : xfloat :=
  match x with
  | Finite a => Float.result (a + y)
  | Infinite negative => Infinite negative
  end.

(** [sum(l)] on floats: the items are added from left to right, from
    the integer 0, every sum rounded to a float (the plain loop of
    CPython up to 3.11; later versions compensate the rounding
    errors). *)
Definition sum_float (l : list Q) : xfloat := foldl float_add (Finite 0) l.

(** [x / n] for a float and an integer.  The integer is the [len] of a
    list, which a float holds exactly, so the result is the quotient by
    [n] rounded once.  The division raises [ZeroDivisionError] for 0 and
    nothing else. *)
Definition float_div (x : xfloat) (n : Z) : IO xfloat :=
  if decide (n = 0) then raise ZeroDivisionError
  else
    mret (match x with
          | Finite a => Float.result (a / inject_Z n)
          | Infinite negative => Infinite negative
          end).

(** [x < y] on finite floats: the comparison of their exact values. *)
Definition float_lt (x y : Q) : bool := negb (Qle_bool y x).

(** [max(l, key=key)]: [ValueError] on the empty list; otherwise the
    items are taken in order and an item replaces the best one so far
    only when its key is greater. *)
Fixpoint max_loop {A} (key : A → IO Q) (maxitem : A) (maxval : Q)
    (l : list A) : IO A :=
  match l with
  | [] => mret maxitem
  | item :: rest =>
      val ← key item;
      if float_lt maxval val then max_loop key item val rest
      else max_loop key maxitem maxval rest
  end.

Definition py_max_key {A} (key : A → IO Q) (l : list A) : IO A :=
  match l with
  | [] => raise ValueError
  | item :: rest => val ← key item; max_loop key item val rest
  end.

(** [max(l)] and [min(l)] on floats. *)
Definition py_max (l : list Q) : IO Q := py_max_key mret l.

Fixpoint min_loop (minitem : Q) (l : list Q) : Q :=
  match l with
  | [] => minitem
  | item :: rest =>
      if float_lt item minitem then min_loop item rest
      else min_loop minitem rest
  end.

Definition py_min (l : list Q) : IO Q :=
  match l with
  | [] => raise ValueError
  | item :: rest => mret (min_loop item rest)
  end.

(** *** What [print] shows *)

(** [str(n)] for an integer. *)
Definition str_of_int (n : Z) : string := NilZero.string_of_int (Z.to_int n).

(** The integer nearest to a rational that is not negative, ties to
    even. *)
Definition round_half_even (q : Q) : Z :=
  let n := Qfloor q in
  match ((q - inject_Z n) ?= 1 # 2)%Q with
  | Lt => n
  | Gt => n + 1
  | Eq => if Z.even n then n else n + 1
  end.

(** [f"{x:.1f}"] for a finite float: the decimal with one digit after
    the point nearest to the exact value of the float, ties to even. *)
Definition format_1f (x : Q) : string :=
  let tenths := round_half_even (Qabs x * 10) in
  (if Qle_bool 0 x then "" else "-")
  +:+ str_of_int (tenths / 10) +:+ "." +:+ str_of_int (tenths mod 10).

(** [f"{x:.1f}"] for a float. *)
Definition format_float_1f (x : xfloat) : string :=
  match x with
  | Finite q => format_1f q
  | Infinite negative => if negative then "-inf" else "inf"
  end.

Definition newline : string := String "010"%char "".

(** The text of a message.  The empty line that [print] adds before the
    header of the report and of the menu, and after the rule that closes
    the report, is not part of it. *)
Definition render (o : Out) : string :=
  match o with
  | NameEmpty => "Student name cannot be empty."
  | AlreadyExists n => "Student '" +:+ n +:+ "' already exists."
  | Added n => "Student '" +:+ n +:+ "' added."
  | AddStudentFirst => "No students found. Please add a student first."
  | NotFound n => "Student '" +:+ n +:+ "' not found."
  | InvalidNumber => "Invalid input. Please enter a number."
  | InvalidGrade => "Invalid grade. Please enter a value between 0 and 100."
  | GradesUpdated n k =>
      "Grades updated for '" +:+ n +:+ "'. (" +:+ str_of_int k
      +:+ " grade(s) added)"
  | NoStudentsToReport => "No students to report."
  | ReportHeader => "--- Student Report ---"
  | AverageNA n => n +:+ "'s average grade is N/A."
  | Average n avg => n +:+ "'s average grade is " +:+ format_1f avg +:+ "."
  | NoGradesYet => "No grades have been added yet."
  | Rule => "------------------------"
  | MaxAverage avg => "Max Average: " +:+ format_1f avg
  | MinAverage avg => "Min Average: " +:+ format_1f avg
  | OverallAverage avg => "Overall Average: " +:+ format_float_1f avg
  | NoStudentsFound => "No students found."
  | NoGradesAvailable => "No grades available to determine top performer."
  | TopStudent n avg =>
      "The student with the highest average is " +:+ n
      +:+ " with a grade of " +:+ format_1f avg +:+ "."
  | Menu =>
      "--- Student Grade Analyzer ---" +:+ newline
      +:+ "1. Add a new student" +:+ newline
      +:+ "2. Add grades for a student" +:+ newline
      +:+ "3. Generate a full report" +:+ newline
      +:+ "4. Find the top student" +:+ newline
      +:+ "5. Exit program"
  | ChoiceNotNumber => "Invalid choice. Please enter a number from 1 to 5."
  | ChoiceOutOfRange => "Invalid choice. Please select a number from 1 to 5."
  | Exiting => "Exiting program."
  end.

(** ** The operations of the program *)

(** [find_student(students, name)]: the first record whose lowercased
    name is the stripped and lowercased [name], with its position;
    [None] when there is none. *)
Definition find_student (students : list Student) (name_ : string)
    : option (nat * Student) :=
  let normalized := Str.lower (Str.strip name_) in
  list_find (λ s, Str.lower (name s) = normalized) students.

(** [add_new_student(students)] *)
Definition add_new_student : IO unit :=
  line ← input;
  let name_ := Str.strip line in
  if decide (name_ = "") then print NameEmpty
  else
    students ← get_students;
    match find_student students name_ with
    | Some _ => print (AlreadyExists name_)
    | None =>
        append_student (mkStudent name_ []);;
        print (Added name_)
    end.

(** One round of the loop of [add_grades_for_student], for the student
    at position [i]. *)
Definition read_grade (i : nat) : IO ctl :=
  line ← input;
  let grade_str := Str.strip line in
  if decide (Str.lower grade_str = "done") then mret Break
  else
    match Str.int grade_str with
    | None => print InvalidNumber;; mret Continue
    | Some grade =>
        if negb ((0 <=? grade) && (grade <=? 100)) then
          print InvalidGrade;; mret Continue
        else
          append_grade i grade;; mret Continue
    end.

(** [add_grades_for_student(students)] *)
Definition add_grades_for_student : IO unit :=
  students ← get_students;
  if decide (students = []) then print AddStudentFirst
  else
    line ← input;
    let name_ := Str.strip line in
    match find_student students name_ with
    | None => print (NotFound name_)
    | Some (i, _) =>
        before ← grades_at i;
        let initial_count := Z.of_nat (length before) in
        while_true (read_grade i);;
        after ← grades_at i;
        let grades_added := Z.of_nat (length after) - initial_count in
        n ← name_at i;
        print (GradesUpdated n grades_added)
    end.

(** The average of a student as both [show_report] and
    [find_top_performer] compute it: [sum(grades) / len(grades)], which
    raises [ZeroDivisionError] on an empty list and [OverflowError] when
    the quotient does not fit a float. *)
Definition average (s : Student) : IO Q :=
  true_div (sum_int (grades s)) (Z.of_nat (length (grades s))).

(** [try: ... except ZeroDivisionError: avg = None]; another exception
    goes on. *)
Definition except_zero_division (m : IO Q) : IO (option Q) := λ w,
  match m w with
  | (w', Return avg) => (w', Return (Some avg))
  | (w', Raise ZeroDivisionError) => (w', Return None)
  | (w', Raise e) => (w', Raise e)
  | (w', OutOfFuel) => (w', OutOfFuel)
  end.

(** The [for student in students] loop of [show_report]; [averages] is
    the list built so far. *)
Fixpoint report_loop (l : list Student) (averages : list Q) : IO (list Q) :=
  match l with
  | [] => mret averages
  | student :: rest =>
      avg ← except_zero_division (average student);
      match avg with
      | None =>
          print (AverageNA (name student));;
          report_loop rest averages
      | Some a =>
          print (Average (name student) a);;
          report_loop rest (averages ++ [a])
      end
  end.

(** [show_report(students)] *)
Definition show_report : IO unit :=
  students ← get_students;
  if decide (students = []) then print NoStudentsToReport
  else
    print ReportHeader;;
    averages ← report_loop students [];
    if decide (averages = []) then
      print NoGradesYet;;
      print Rule
    else
      max_avg ← py_max averages;
      min_avg ← py_min averages;
      overall_avg ← float_div (sum_float averages) (Z.of_nat (length averages));
      print Rule;;
      print (MaxAverage max_avg);;
      print (MinAverage min_avg);;
      print (OverallAverage overall_avg);;
      print Rule.

(** [s["grades"]] taken as a truth value. *)
Definition has_grades (s : Student) : bool :=
  match grades s with [] => false | _ => true end.

(** [find_top_performer(students)] *)
Definition find_top_performer : IO unit :=
  students ← get_students;
  if decide (students = []) then print NoStudentsFound
  else
    let students_with_grades := filter (λ s, has_grades s) students in
    if decide (students_with_grades = []) then print NoGradesAvailable
    else
      top_student ← py_max_key average students_with_grades;
      top_avg ← average top_student;
      print (TopStudent (name top_student) top_avg).

(** [print_menu()] *)
Definition print_menu : IO unit := print Menu.

(** One round of the loop of [main]. *)
Definition main_round : IO ctl :=
  print_menu;;
  line ← input;
  let choice_str := Str.strip line in
  match Str.int choice_str with
  | None => print ChoiceNotNumber;; mret Continue
  | Some choice =>
      if decide (choice = 1) then add_new_student;; mret Continue
      else if decide (choice = 2) then add_grades_for_student;; mret Continue
      else if decide (choice = 3) then show_report;; mret Continue
      else if decide (choice = 4) then find_top_performer;; mret Continue
      else if decide (choice = 5) then print Exiting;; mret Break
      else print ChoiceOutOfRange;; mret Continue
  end.

(** [main()], on the lines [lines] of the standard input.  The handler
    of [KeyboardInterrupt] answers a signal from outside the program and
    has no part in the model. *)
Definition main (lines : list string) : World * outcome unit :=
  while_true main_round (mkWorld [] lines []).

(** ** The vocabulary of the specification *)

(** The normalized form of a name: stripped and lowercased. *)
Definition normalize (s : string) : string := Str.lower (Str.strip s).

(** The exact quotient of the sum of the grades of a student by their
    number, and the average of the student: the quotient rounded to a
    float. *)
Definition exact_avg (s : Student) : Q :=
  (inject_Z (sum_int (grades s)) / inject_Z (Z.of_nat (length (grades s))))%Q.

Definition avg_of (s : Student) : Q := Float.round (exact_avg s).

(** A student whose average does not fit a float. *)
Definition overflows (s : Student) : bool :=
  has_grades s && Float.too_large (exact_avg s).

(** The mean of a list of averages as the floats give it: their sum
    from left to right, divided by their number. *)
Definition mean (l : list Q) : xfloat :=
  match sum_float l with
  | Finite a => Float.result (a / inject_Z (Z.of_nat (length l)))
  | Infinite negative => Infinite negative
  end.

(** A student with [z] grades of 100 followed by one grade of 99. *)
Definition hundreds_and_99 (n : string) (z : Z) : Student :=
  mkStudent n (replicate (Z.to_nat z) 100 ++ [99]).


(** The run of an operation on a registry and an input, from an empty
    output. *)
Definition run {A} (m : IO A) (l : list Student) (lines : list string)
    : World * outcome A :=
  m (mkWorld l lines []).

(** A stored name is stripped when [strip] leaves it as it is. *)
Definition stripped (s : Student) : Prop := Str.strip (name s) = name s.

(** [first_match P l r]: [r] is the first record of [l] that satisfies
    [P], with its position, or [None] when no record of [l] does. *)
Definition first_match (P : Student → Prop) (l : list Student)
    (r : option (nat * Student)) : Prop :=
  match r with
  | Some (i, s) =>
      l !! i = Some s ∧ P s ∧ ∀ j s', l !! j = Some s' → (j < i)%nat → ¬ P s'
  | None => ∀ s, s ∈ l → ¬ P s
  end.

(** What the token loop of [add_grades_for_student] makes of one token
    that is not the sentinel. *)
Inductive verdict := Accepted (g : Z) | InvalidFormat | OutOfRange.

Definition judge (tok : string) : verdict :=
  match Str.int tok with
  | None => InvalidFormat
  | Some g => if decide (0 ≤ g ≤ 100) then Accepted g else OutOfRange
  end.

(** The sentinel: [done] in any case, with any white space around it. *)
Definition is_done (tok : string) : Prop := Str.lower (Str.strip tok) = "done".

(** The grades a list of tokens adds, and the rejections it prints, in
    the order of the tokens. *)
Definition accepted (toks : list string) : list Z :=
  omap (λ t, match judge t with Accepted g => Some g | _ => None end) toks.

Definition rejections (toks : list string) : list Out :=
  omap (λ t, match judge t with
             | Accepted _ => None
             | InvalidFormat => Some InvalidNumber
             | OutOfRange => Some InvalidGrade
             end) toks.

(** A record with the grades [gs] added at the end of its grades. *)
Definition extend (gs : list Z) (s : Student) : Student :=
  mkStudent (name s) (grades s ++ gs).

(** The invariants of the data model. *)
Definition grades_in_range (l : list Student) : Prop :=
  Forall (λ s, Forall (λ g, 0 ≤ g ≤ 100) (grades s)) l.

Definition names_unique (l : list Student) : Prop :=
  NoDup ((λ s, normalize (name s)) <$> l).

(** The registries that [add_new_student] and [add_grades_for_student]
    build from the empty one, on any input; the registry an operation
    leaves counts also when the operation ends with [EOFError]. *)
Inductive reachable : list Student → Prop :=
  | reachable_empty : reachable []
  | reachable_add_student l lines :
      reachable l →
      reachable (students (run add_new_student l lines).1)
  | reachable_add_grades l lines :
      reachable l →
      reachable (students (run add_grades_for_student l lines).1).

(** The invariant that the operations keep: the two above, and that
    every stored name is stripped. *)
Definition invariant (l : list Student) : Prop :=
  Forall stripped l ∧ grades_in_range l ∧ names_unique l.

(** The students that have grades, in registry order. *)
Definition with_grades (l : list Student) : list Student :=
  filter (λ s, grades s ≠ []) l.

(** The line of the report for one student. *)
Definition report_line (s : Student) : Out :=
  match grades s with
  | [] => AverageNA (name s)
  | _ => Average (name s) (avg_of s)
  end.

(** What [max] and [min] return, without the state: a scan from the
    left that keeps the item it has unless the next one is strictly
    better. *)
Fixpoint first_max {A} (k : A → Q) (best : A) (l : list A) : A :=
  match l with
  | [] => best
  | x :: r => if float_lt (k best) (k x) then first_max k x r else first_max k best r
  end.

Definition maximum (l : list Q) : Q :=
  match l with [] => 0%Q | a :: r => first_max id a r end.

Definition minimum (l : list Q) : Q :=
  match l with [] => 0%Q | a :: r => min_loop a r end.



(** The lines of the students that the report prints: all of them, or
    those before the first student whose average does not fit a float. *)
Fixpoint report_lines (l : list Student) : list Out :=
  match l with
  | [] => []
  | s :: r => if overflows s then [] else report_line s :: report_lines r
  end.

(** All that [show_report] prints for a registry, and how it ends. *)
Definition report_output (l : list Student) : list Out :=
  if decide (l = []) then [NoStudentsToReport]
  else
    let averages := avg_of <$> with_grades l in
    ReportHeader :: report_lines l ++
      (if existsb overflows l then []
       else if decide (averages = []) then [NoGradesYet; Rule]
       else [Rule; MaxAverage (maximum averages); MinAverage (minimum averages);
             OverallAverage (mean averages); Rule]).

Definition float_outcome (l : list Student) : outcome unit :=
  if existsb overflows l then Raise OverflowError else Return tt.

(** The one line that [find_top_performer] prints for a registry. *)
Definition top_output (l : list Student) : Out :=
  if decide (l = []) then NoStudentsFound
  else
    match with_grades l with
    | [] => NoGradesAvailable
    | s :: r =>
        let top := first_max avg_of s r in
        TopStudent (name top) (avg_of top)
    end.

(** All that [find_top_performer] prints for a registry: nothing when
    an average does not fit a float. *)
Definition top_lines (l : list Student) : list Out :=
  if existsb overflows l then [] else [top_output l].

(** The lines of the report that carry a statistic of the whole
    registry. *)
Definition is_aggregate (o : Out) : bool :=
  match o with
  | MaxAverage _ | MinAverage _ | OverallAverage _ => true
  | _ => false
  end.

(** An outcome the program can have: a value, or the end of the input;
    never another exception, never a loop out of fuel. *)
Definition ends_well {A} (o : outcome A) : Prop :=
  match o with
  | Return _ => True
  | Raise e => e = EOFError
  | OutOfFuel => False
  end.

(** A computation that ends well and reads on: it leaves no more lines
    to read than it found. *)
Definition reads_on {A} (m : IO A) : Prop :=
  ∀ w, ends_well (m w).2 ∧ (length (stdin (m w).1) ≤ length (stdin w))%nat.

(** What one operation of the menu can do to the registry: nothing, add
    at the end the record of a stripped, non-empty name that the lookup
    does not find, or add grades of [0, 100] to one record. *)
Inductive step : list Student → list Student → Prop :=
  | step_same l : step l l
  | step_add l raw :
      Str.strip raw ≠ "" → find_student l raw = None →
      step l (l ++ [mkStudent (Str.strip raw) []])
  | step_grades l i gs :
      Forall (λ g, 0 ≤ g ≤ 100) gs → step l (alter (extend gs) i l).

(** The invariant of a registry that the program has built: the names
    are stripped, not empty and pairwise different once normalized, and
    the grades lie in [0, 100]. *)
Definition well_formed (l : list Student) : Prop :=
  invariant l ∧ Forall (λ s, name s ≠ "") l.

(** [l'] keeps what [l] holds: every record of [l] is still at its
    position in [l'], under the same name, and its grades are the first
    grades of the record of [l']. *)
Definition keeps (l l' : list Student) : Prop :=
  ∀ i s, l !! i = Some s →
    ∃ s', l' !! i = Some s' ∧ name s' = name s
          ∧ grades s `prefix_of` grades s'.

(** [l'] answers the lookups that [l] answers, with the record at the
    same position. *)
Definition keeps_lookup (l l' : list Student) : Prop :=
  ∀ q i s, find_student l q = Some (i, s) →
    ∃ s', find_student l' q = Some (i, s') ∧ name s' = name s.

(** How an operation that ends with an exception ends: with [EOFError]
    and no line left to read. *)
Definition eof_at_end {A} (r : World * outcome A) : Prop :=
  match r.2 with
  | Return _ => True
  | Raise e => e = EOFError ∧ stdin r.1 = []
  | OutOfFuel => True
  end.

(** The same of [EOFError] alone: an operation that ends with it has no
    line left to read. *)
Definition eof_only_at_end {A} (r : World * outcome A) : Prop :=
  r.2 = Raise EOFError → stdin r.1 = [].

(** What a round of the menu does once it has printed the menu and read
    the line [line]. *)
Definition menu_choice (line : string) : IO ctl :=
  match Str.int (Str.strip line) with
  | None => print ChoiceNotNumber;; mret Continue
  | Some choice =>
      if decide (choice = 1) then add_new_student;; mret Continue
      else if decide (choice = 2) then add_grades_for_student;; mret Continue
      else if decide (choice = 3) then show_report;; mret Continue
      else if decide (choice = 4) then find_top_performer;; mret Continue
      else if decide (choice = 5) then print Exiting;; mret Break
      else print ChoiceOutOfRange;; mret Continue
  end.

(** * Proofs *)

(** ** Strings *)

Example strip_ex : Str.strip "  Ann Lee  " = "Ann Lee".
Proof. reflexivity. Qed.

Example lower_ex : Str.lower "Ann-LEE 7" = "ann-lee 7".
Proof. reflexivity. Qed.

Example int_ex :
  Str.int "42" = Some 42 ∧ Str.int "-7" = Some (-7) ∧ Str.int "+1_000" = Some 1000
  ∧ Str.int " 007 " = Some 7 ∧ Str.int "" = None ∧ Str.int "4.5" = None
  ∧ Str.int "1__0" = None ∧ Str.int "_1" = None ∧ Str.int "1_" = None
  ∧ Str.int "- 1" = None ∧ Str.int "notanumber" = None.
Proof. repeat split; reflexivity. Qed.

(** The floats on known values: 1/10 and 1/3 are rounded, 1/2 and 62.5
    are floats; the largest float is 2^1024 - 2^971, and the rounding
    gives an infinity from 2^1024 - 2^970 on, where [Float.too_large]
    holds. *)
Example float_ex :
  Float.round (1 # 10) = (3602879701896397 # 36028797018963968)%Q
  ∧ Float.round (1 # 3) = (6004799503160661 # 18014398509481984)%Q
  ∧ Float.round (1 # 2) = (1 # 2)%Q
  ∧ Float.round (125 # 2) = (125 # 2)%Q
  ∧ Float.round (inject_Z (2 ^ 1024 - 2 ^ 970 - 1)) = inject_Z (2 ^ 1024 - 2 ^ 971)
  ∧ Float.too_large (inject_Z (2 ^ 1024 - 2 ^ 970 - 1)) = false
  ∧ Float.nearest (inject_Z (2 ^ 1024 - 2 ^ 970)) = S754_infinity false
  ∧ Float.too_large (inject_Z (2 ^ 1024 - 2 ^ 970)) = true
  ∧ Float.nearest (inject_Z (10 ^ 400)) = S754_infinity false
  ∧ Float.too_large (inject_Z (10 ^ 400)) = true.
Proof. repeat split; vm_compute; reflexivity. Qed.

(** [:.1f] on known values: 0.25 is a tie and goes to the even digit,
    the float nearest to 0.35 is below 0.35, the one nearest to 99.95 is
    above. *)
Example format_ex :
  format_1f (Float.round (125 # 2)) = "62.5"
  ∧ format_1f (Float.round (1 # 4)) = "0.2"
  ∧ format_1f (Float.round (35 # 100)) = "0.3"
  ∧ format_1f (Float.round (9995 # 100)) = "100.0"
  ∧ format_1f (Float.round (200 # 3)) = "66.7"
  ∧ format_1f (Float.round (- (4 # 100))) = "-0.0"
  ∧ format_1f 0 = "0.0"
  ∧ format_float_1f (Infinite false) = "inf"
  ∧ render (TopStudent "Ann" (Float.round (171 # 2))) =
      "The student with the highest average is Ann with a grade of 85.5."
  ∧ render (GradesUpdated "Ann" 2) = "Grades updated for 'Ann'. (2 grade(s) added)".
Proof. repeat split; vm_compute; reflexivity. Qed.

Lemma lstrip_head s :
  Str.lstrip s = "" ∨ ∃ c r, Str.lstrip s = String c r ∧ Str.isspace c = false.
Proof.
  induction s as [|c r IH]; simpl; [by left|].
  destruct (Str.isspace c) eqn:Hc; [done|]. right. eauto.
Qed.

Lemma rstrip_head c r :
  Str.isspace c = false → ∃ r', Str.rstrip (String c r) = String c r'.
Proof. intros Hc. simpl. rewrite Hc. destruct (Str.rstrip r); eauto. Qed.

Lemma rstrip_idem s : Str.rstrip (Str.rstrip s) = Str.rstrip s.
Proof.
  induction s as [|c r IH]; simpl; [done|].
  destruct (Str.rstrip r) as [|c' r'] eqn:Hr.
  - destruct (Str.isspace c) eqn:Hc; simpl; [done|]. by rewrite Hc.
  - change (Str.rstrip (String c (String c' r')))
      with (match Str.rstrip (String c' r') with
            | EmptyString =>
                if Str.isspace c then EmptyString else String c EmptyString
            | x => String c x
            end).
    by rewrite IH.
Qed.

Lemma strip_idem s : Str.strip (Str.strip s) = Str.strip s.
Proof.
  unfold Str.strip.
  destruct (lstrip_head s) as [->|(c & r & -> & Hc)]; [done|].
  destruct (rstrip_head c r Hc) as [r' Hr]. rewrite Hr.
  simpl Str.lstrip. rewrite Hc, <- Hr. apply rstrip_idem.
Qed.

Lemma normalize_strip s : normalize (Str.strip s) = normalize s.
Proof. unfold normalize. by rewrite strip_idem. Qed.

Lemma normalize_stripped s : stripped s → normalize (name s) = Str.lower (name s).
Proof. unfold stripped, normalize. by intros ->. Qed.

(** ** Running a computation *)

Arguments find_student : simpl never.
Arguments Str.strip : simpl never.
Arguments Str.lower : simpl never.
Arguments Str.int : simpl never.
Arguments py_max_key : simpl never.

Ltac io_unfold :=
  unfold run, mbind, IO_bind, mret, IO_ret, raise, input, print, print_menu,
    get_students, append_student, append_grade, grades_at, name_at.

Ltac io_simpl := io_unfold; simpl; cbn [students stdin stdout].

(** ** Lookup *)

Lemma find_student_first l n :
  first_match (λ s, Str.lower (name s) = normalize n) l (find_student l n).
Proof.
  unfold find_student, first_match. fold (normalize n).
  destruct (list_find _ l) as [[i s]|] eqn:Hf.
  - apply list_find_Some in Hf. naive_solver.
  - apply list_find_None in Hf. rewrite Forall_forall in Hf. naive_solver.
Qed.

Lemma first_match_ext (P Q : Student → Prop) l r :
  (∀ s, s ∈ l → P s ↔ Q s) → first_match P l r → first_match Q l r.
Proof.
  intros HPQ. destruct r as [[i s]|]; simpl.
  - intros (Hi & HP & Hlt). split_and!; [done| |].
    + apply HPQ; [|done]. by eapply list_elem_of_lookup_2.
    + intros j s' Hj Hji HQ. apply (Hlt j s' Hj Hji), HPQ; [|done].
      by eapply list_elem_of_lookup_2.
  - intros Hn s Hs HQ. apply (Hn s Hs), HPQ; done.
Qed.

Lemma find_student_strip l n : find_student l (Str.strip n) = find_student l n.
Proof. unfold find_student. by rewrite strip_idem. Qed.

(** C7, as the code has it: for every registry and every input string
    [find_student] returns the first record, in registry order, whose
    lowercased stored name equals the stripped and lowercased input, and
    [None] when no record matches; the stored name is lowercased and not
    stripped.  On a registry whose stored names are all stripped this is
    the first record whose normalized name equals the normalized input.
    The lookup is a function of the registry and the input: it leaves the
    registry as it is. *)
Theorem find_student_first_match (l : list Student) (n : string) :
  first_match (λ s, Str.lower (name s) = normalize n) l (find_student l n)
  ∧ (Forall stripped l →
     first_match (λ s, normalize (name s) = normalize n) l (find_student l n)).
Proof.
  split; [apply find_student_first|].
  intros Hs. eapply first_match_ext; [|apply find_student_first].
  intros s Hin. simpl. rewrite Forall_forall in Hs.
  by rewrite (normalize_stripped s (Hs s Hin)).
Qed.

Lemma find_student_first_match_witness :
  Forall stripped [mkStudent "Ann" [50]; mkStudent "Bob" []]
  ∧ find_student [mkStudent "Ann" [50]; mkStudent "Bob" []] "  BOB " =
      Some (1%nat, mkStudent "Bob" [])
  ∧ first_match (λ s, normalize (name s) = normalize "  BOB ")
      [mkStudent "Ann" [50]; mkStudent "Bob" []]
      (find_student [mkStudent "Ann" [50]; mkStudent "Bob" []] "  BOB ").
Proof.
  assert (Hs : Forall stripped [mkStudent "Ann" [50]; mkStudent "Bob" []])
    by (repeat constructor).
  split_and!; [exact Hs | reflexivity |].
  exact (proj2 (find_student_first_match
                  [mkStudent "Ann" [50]; mkStudent "Bob" []] "  BOB ") Hs).
Defined.

(** C7 as stated fails: a stored name with a leading space has the
    normalized form of the input, and the lookup does not find it. *)
Lemma find_student_normalized_counterexample :
  ¬ (∀ l n, first_match (λ s, normalize (name s) = normalize n) l
              (find_student l n)).
Proof.
  intros H. specialize (H [mkStudent " ann" []] "ann").
  apply (H (mkStudent " ann" [])); [apply list_elem_of_here | reflexivity].
Qed.

(** ** Adding a student *)

Lemma find_student_is_Some l n :
  is_Some (find_student l n) ↔ Exists (λ s, Str.lower (name s) = normalize n) l.
Proof.
  unfold find_student. fold (normalize n). split.
  - intros [[i s] Hf]. apply list_find_Some in Hf as (Hi & HP & _).
    apply Exists_exists. exists s. split; [|done]. by eapply list_elem_of_lookup_2.
  - intros (s & Hin & HP)%Exists_exists. by eapply list_find_elem_of.
Qed.

(** [add_new_student] in any state with a line to read. *)
Lemma add_new_student_at l raw rest out :
  add_new_student (mkWorld l (raw :: rest) out) =
    if decide (Str.strip raw = "") then
      (mkWorld l rest (out ++ [NameEmpty]), Return tt)
    else if decide (Exists (λ s, Str.lower (name s) = normalize raw) l) then
      (mkWorld l rest (out ++ [AlreadyExists (Str.strip raw)]), Return tt)
    else
      (mkWorld (l ++ [mkStudent (Str.strip raw) []]) rest
         (out ++ [Added (Str.strip raw)]), Return tt).
Proof.
  unfold add_new_student. io_simpl.
  destruct (decide (Str.strip raw = "")) as [|Hne]; [done|]. io_simpl.
  pose proof (find_student_is_Some l (Str.strip raw)) as Hf.
  rewrite normalize_strip in Hf.
  destruct (decide (Exists _ l)) as [Hex|Hex].
  - apply Hf in Hex as [[i s] ->]. done.
  - destruct (find_student l (Str.strip raw)) as [p|] eqn:E; [|done].
    destruct Hex. apply Hf. eauto.
Qed.

Lemma add_new_student_eof l out :
  add_new_student (mkWorld l [] out) = (mkWorld l [] out, Raise EOFError).
Proof. done. Qed.

(** C3, as the code has it: for every registry and raw name,
    [add_new_student] fails with the empty-name message exactly when
    the stripped name is empty; otherwise it fails with the duplicate
    message exactly when some record's lowercased stored name (lowercased,
    not stripped) equals the normalized input; both failures leave the
    registry as it is; otherwise the new registry is the old one with the
    record of the stripped name, in its original case, and no grades
    appended at the end.  On a registry whose stored names are all
    stripped the duplicate test is the one on normalized names. *)
Theorem add_new_student_spec (l : list Student) (raw : string)
    (rest : list string) :
  run add_new_student l (raw :: rest) =
    (if decide (Str.strip raw = "") then
       (mkWorld l rest [NameEmpty], Return tt)
     else if decide (Exists (λ s, Str.lower (name s) = normalize raw) l) then
       (mkWorld l rest [AlreadyExists (Str.strip raw)], Return tt)
     else
       (mkWorld (l ++ [mkStudent (Str.strip raw) []]) rest
          [Added (Str.strip raw)], Return tt))
  ∧ (Forall stripped l →
     Exists (λ s, Str.lower (name s) = normalize raw) l
     ↔ Exists (λ s, normalize (name s) = normalize raw) l).
Proof.
  split; [apply add_new_student_at|].
  intros Hs. rewrite !Exists_exists. rewrite Forall_forall in Hs.
  split; intros (s & Hin & HP); exists s; split; try done.
  - by rewrite normalize_stripped by auto.
  - by rewrite <- normalize_stripped by auto.
Qed.

Lemma add_new_student_spec_witness :
  Forall stripped [mkStudent "Ann" []]
  ∧ run add_new_student [mkStudent "Ann" []] [" ANN "; "x"] =
      (mkWorld [mkStudent "Ann" []] ["x"] [AlreadyExists "ANN"], Return tt)
  ∧ run add_new_student [mkStudent "Ann" []] [" Bob "; "x"] =
      (mkWorld [mkStudent "Ann" []; mkStudent "Bob" []] ["x"] [Added "Bob"],
       Return tt)
  ∧ run add_new_student [mkStudent "Ann" []] ["   "; "x"] =
      (mkWorld [mkStudent "Ann" []] ["x"] [NameEmpty], Return tt)
  ∧ (Exists (λ s, Str.lower (name s) = normalize " ANN ") [mkStudent "Ann" []]
     ↔ Exists (λ s, normalize (name s) = normalize " ANN ") [mkStudent "Ann" []]).
Proof.
  assert (Hs : Forall stripped [mkStudent "Ann" []]) by (repeat constructor).
  split_and!.
  - exact Hs.
  - exact (proj1 (add_new_student_spec [mkStudent "Ann" []] " ANN " ["x"])).
  - exact (proj1 (add_new_student_spec [mkStudent "Ann" []] " Bob " ["x"])).
  - exact (proj1 (add_new_student_spec [mkStudent "Ann" []] "   " ["x"])).
  - exact (proj2 (add_new_student_spec [mkStudent "Ann" []] " ANN " []) Hs).
Defined.

(** C3 as stated fails: the stored name " ann" has the normalized form
    of the input "ann", and the input is added, not refused. *)
Lemma add_new_student_duplicate_counterexample :
  ¬ (∀ l raw rest,
       Str.strip raw ≠ "" →
       Exists (λ s, normalize (name s) = normalize raw) l →
       run add_new_student l (raw :: rest) =
         (mkWorld l rest [AlreadyExists (Str.strip raw)], Return tt)).
Proof.
  intros H. specialize (H [mkStudent " ann" []] "ann" []).
  discriminate H; [discriminate | by apply Exists_cons_hd].
Qed.

(** ** Adding grades *)

Lemma int_strip s : Str.int (Str.strip s) = Str.int s.
Proof. unfold Str.int. by rewrite strip_idem. Qed.

Lemma extend_nil s : extend [] s = s.
Proof. destruct s. unfold extend. simpl. by rewrite app_nil_r. Qed.

Lemma extend_extend gs1 gs2 s : extend gs2 (extend gs1 s) = extend (gs1 ++ gs2) s.
Proof. unfold extend. simpl. by rewrite app_assoc. Qed.

Lemma alter_extend_nil i (l : list Student) : alter (extend []) i l = l.
Proof. apply list_alter_id, extend_nil. Qed.

Lemma alter_extend_extend gs1 gs2 i (l : list Student) :
  alter (extend gs2) i (alter (extend gs1) i l) = alter (extend (gs1 ++ gs2)) i l.
Proof.
  rewrite list_alter_alter_eq. apply list_alter_ext; [|done].
  intros s _. apply extend_extend.
Qed.

(** One round of the token loop, case by case. *)
Lemma read_grade_step i l tok rest out :
  read_grade i (mkWorld l (tok :: rest) out) =
    if decide (is_done tok) then (mkWorld l rest out, Return Break)
    else match judge tok with
         | Accepted g =>
             (mkWorld (alter (extend [g]) i l) rest out, Return Continue)
         | InvalidFormat =>
             (mkWorld l rest (out ++ [InvalidNumber]), Return Continue)
         | OutOfRange =>
             (mkWorld l rest (out ++ [InvalidGrade]), Return Continue)
         end.
Proof.
  unfold read_grade, is_done, judge. io_simpl.
  destruct (decide (Str.lower (Str.strip tok) = "done")); [done|].
  rewrite int_strip. destruct (Str.int tok) as [g|]; [|done].
  destruct (decide (0 ≤ g ≤ 100)) as [Hg|Hg].
  - replace ((0 <=? g) && (g <=? 100)) with true by (symmetry; apply andb_true_iff; lia).
    done.
  - replace ((0 <=? g) && (g <=? 100)) with false; [done|].
    symmetry. apply andb_false_iff. lia.
Qed.

Lemma read_grade_eof i l out :
  read_grade i (mkWorld l [] out) = (mkWorld l [] out, Raise EOFError).
Proof. done. Qed.

(** The token loop on tokens that end with the sentinel. *)
Lemma grades_loop_done i toks d rest :
  Forall (λ t, ¬ is_done t) toks → is_done d →
  ∀ fuel l out, (length toks < fuel)%nat →
  while_fuel fuel (read_grade i) (mkWorld l (toks ++ d :: rest) out) =
    (mkWorld (alter (extend (accepted toks)) i l) rest (out ++ rejections toks),
     Return tt).
Proof.
  intros Htoks Hd. induction Htoks as [|tok toks Htok _ IH];
    intros [|fuel] l out Hfuel; simpl in Hfuel; try lia.
  - simpl. unfold mbind, IO_bind. rewrite read_grade_step.
    rewrite decide_True by done. simpl.
    by rewrite alter_extend_nil, app_nil_r.
  - change (while_fuel (S fuel) (read_grade i)) with
      (c ← read_grade i;
       match c with Break => mret tt | Continue => while_fuel fuel (read_grade i) end).
    unfold mbind at 1. unfold IO_bind. simpl app. rewrite read_grade_step.
    rewrite decide_False by done.
    unfold accepted, rejections. simpl omap.
    fold (accepted toks) (rejections toks).
    destruct (judge tok) as [g| |]; simpl; rewrite IH by lia.
    + by rewrite alter_extend_extend.
    + by rewrite <- app_assoc.
    + by rewrite <- app_assoc.
Qed.

(** The token loop on any input and with any fuel: it adds grades in
    range to the record at position [i] and does nothing else to the
    registry. *)
Lemma grades_loop_frame i fuel : ∀ w,
  ∃ gs, Forall (λ g, 0 ≤ g ≤ 100) gs
        ∧ students (while_fuel fuel (read_grade i) w).1
          = alter (extend gs) i (students w).
Proof.
  induction fuel as [|fuel IH]; intros [l lines out].
  - exists []. by rewrite alter_extend_nil.
  - change (while_fuel (S fuel) (read_grade i)) with
      (c ← read_grade i;
       match c with Break => mret tt | Continue => while_fuel fuel (read_grade i) end).
    unfold mbind, IO_bind. destruct lines as [|tok rest].
    + rewrite read_grade_eof. exists []. by rewrite alter_extend_nil.
    + rewrite read_grade_step. destruct (decide (is_done tok)).
      { exists []. by rewrite alter_extend_nil. }
      unfold judge. destruct (Str.int tok) as [g|].
      * destruct (decide (0 ≤ g ≤ 100)).
        -- destruct (IH (mkWorld (alter (extend [g]) i l) rest out)) as (gs & Hgs & ->).
           exists (g :: gs). split; [by constructor|].
           simpl. by rewrite alter_extend_extend.
        -- destruct (IH (mkWorld l rest (out ++ [InvalidGrade]))) as (gs & Hgs & ->).
           by exists gs.
      * destruct (IH (mkWorld l rest (out ++ [InvalidNumber]))) as (gs & Hgs & ->).
        by exists gs.
Qed.

Lemma find_student_lookup l n i s :
  find_student l n = Some (i, s) →
  l !! i = Some s ∧ l ≠ [] ∧ (i < length l)%nat.
Proof.
  intros Hf. pose proof (find_student_first l n) as Hm. rewrite Hf in Hm.
  destruct Hm as (Hi & _). split_and!; [done| |by eapply lookup_lt_Some].
  by intros ->.
Qed.

Lemma alter_insert_lookup (f : Student → Student) (i : nat) (l : list Student) s :
  l !! i = Some s → alter f i l = <[i := f s]> l.
Proof.
  intros Hi. rewrite list_insert_alter. apply list_alter_ext; [|done].
  intros x Hx. congruence.
Qed.

(** The whole operation once the student is found, on any input: the
    token loop is entered on the rest of the input. *)
Lemma add_grades_found l line rest out i s :
  find_student l line = Some (i, s) →
  add_grades_for_student (mkWorld l (line :: rest) out) =
    (let r := while_true (read_grade i) (mkWorld l rest out) in
     match r.2 with
     | Return _ =>
         (mkWorld (students r.1) (stdin r.1)
            (stdout r.1 ++
               [GradesUpdated (from_option name "" (students r.1 !! i))
                  (Z.of_nat (length (from_option grades [] (students r.1 !! i)))
                   - Z.of_nat (length (grades s)))]),
          Return tt)
     | Raise e => (r.1, Raise e)
     | OutOfFuel => (r.1, OutOfFuel)
     end).
Proof.
  intros Hf. destruct (find_student_lookup _ _ _ _ Hf) as (Hi & Hne & _).
  unfold add_grades_for_student. io_simpl.
  rewrite decide_False by done. io_simpl.
  rewrite find_student_strip, Hf. io_simpl. rewrite Hi. simpl.
  destruct (while_true (read_grade i) _) as [w' [[]|e|]]; done.
Qed.

(** C2: when the lookup finds the student and the tokens end with the
    sentinel, [add_grades_for_student] adds to that student's grades
    exactly the tokens that parse as integers of [0, 100], in the order
    received; every other token is answered by its rejection (not a
    number, or out of range) and the loop goes on; the count it reports is
    the number of accepted tokens, which is the length of the grades
    after minus the length before. *)
Theorem add_grades_spec (l : list Student) (line : string)
    (toks : list string) (d : string) (rest : list string)
    (i : nat) (s : Student) :
  find_student l line = Some (i, s) →
  Forall (λ t, ¬ is_done t) toks →
  is_done d →
  run add_grades_for_student l (line :: toks ++ d :: rest) =
    (mkWorld (<[i := mkStudent (name s) (grades s ++ accepted toks)]> l) rest
       (rejections toks
        ++ [GradesUpdated (name s) (Z.of_nat (length (accepted toks)))]),
     Return tt)
  ∧ Z.of_nat (length (accepted toks)) =
      Z.of_nat (length (grades s ++ accepted toks)) - Z.of_nat (length (grades s)).
Proof.
  intros Hf Htoks Hd. split; [|rewrite length_app; lia].
  destruct (find_student_lookup _ _ _ _ Hf) as (Hi & _ & _).
  unfold run. rewrite (add_grades_found _ _ _ _ _ _ Hf).
  unfold while_true. cbn [stdin].
  rewrite (grades_loop_done i toks d rest Htoks Hd) by (rewrite length_app; simpl; lia).
  cbn [fst snd students stdin stdout app].
  rewrite list_lookup_alter_eq, Hi. simpl.
  rewrite (alter_insert_lookup _ _ _ _ Hi). unfold extend.
  repeat f_equal. rewrite length_app. lia.
Qed.

Lemma add_grades_spec_witness :
  find_student [mkStudent "Ann" [70]; mkStudent "Bob" []] " bob " =
    Some (1%nat, mkStudent "Bob" [])
  ∧ Forall (λ t, ¬ is_done t) ["50"; "notanumber"; "150"; "-1"; " 100 "]
  ∧ is_done "DONE"
  ∧ run add_grades_for_student [mkStudent "Ann" [70]; mkStudent "Bob" []]
      [" bob "; "50"; "notanumber"; "150"; "-1"; " 100 "; "DONE"; "7"] =
      (mkWorld [mkStudent "Ann" [70]; mkStudent "Bob" [50; 100]] ["7"]
         [InvalidNumber; InvalidGrade; InvalidGrade; GradesUpdated "Bob" 2],
       Return tt).
Proof.
  assert (Hf : find_student [mkStudent "Ann" [70]; mkStudent "Bob" []] " bob " =
               Some (1%nat, mkStudent "Bob" [])) by reflexivity.
  assert (Ht : Forall (λ t, ¬ is_done t)
                 ["50"; "notanumber"; "150"; "-1"; " 100 "])
    by (repeat constructor; discriminate).
  assert (Hd : is_done "DONE") by reflexivity.
  split_and!; [exact Hf | exact Ht | exact Hd |].
  exact (proj1 (add_grades_spec _ " bob " _ "DONE" ["7"] _ _ Hf Ht Hd)).
Defined.

Lemma add_grades_empty lines :
  run add_grades_for_student [] lines = (mkWorld [] lines [AddStudentFirst], Return tt).
Proof. done. Qed.

Lemma add_grades_eof l :
  l ≠ [] → run add_grades_for_student l [] = (mkWorld l [] [], Raise EOFError).
Proof.
  intros Hne. unfold add_grades_for_student. io_simpl.
  by rewrite decide_False by done.
Qed.

Lemma add_grades_not_found l line rest :
  l ≠ [] → find_student l line = None →
  run add_grades_for_student l (line :: rest) =
    (mkWorld l rest [NotFound (Str.strip line)], Return tt).
Proof.
  intros Hne Hf. unfold add_grades_for_student. io_simpl.
  rewrite decide_False by done. io_simpl.
  by rewrite find_student_strip, Hf.
Qed.

Lemma add_grades_found_students l line rest i s :
  find_student l line = Some (i, s) →
  ∃ gs, Forall (λ g, 0 ≤ g ≤ 100) gs
        ∧ students (run add_grades_for_student l (line :: rest)).1
          = alter (extend gs) i l.
Proof.
  intros Hf. unfold run. rewrite (add_grades_found _ _ _ _ _ _ Hf).
  unfold while_true.
  destruct (grades_loop_frame i (S (length (stdin (mkWorld l rest []))))
              (mkWorld l rest [])) as (gs & Hgs & Hl).
  exists gs. split; [done|]. cbn [students stdin] in Hl |- *.
  rewrite <- Hl. cbv zeta.
  by destruct (while_fuel _ _ _) as [w' [[]|e|]].
Qed.

(** On any registry and any input [add_grades_for_student] leaves a
    registry in which one record, at most, has grades of [0, 100] added. *)
Lemma add_grades_students l lines :
  ∃ i gs, Forall (λ g, 0 ≤ g ≤ 100) gs
          ∧ students (run add_grades_for_student l lines).1
            = alter (extend gs) i l.
Proof.
  destruct (decide (l = [])) as [->|Hne].
  { exists 0%nat, []. by rewrite add_grades_empty. }
  destruct lines as [|line rest].
  { exists 0%nat, []. by rewrite add_grades_eof, alter_extend_nil. }
  destruct (find_student l line) as [[i s]|] eqn:Hf.
  - exists i. by eapply add_grades_found_students.
  - exists 0%nat, []. by rewrite add_grades_not_found, alter_extend_nil.
Qed.

(** C8: when [add_grades_for_student] finds its student, at position
    [i], the registry it leaves has the same length, the same record at
    every other position, and at position [i] a record with the same name
    whose grades are the old ones with new ones added at the end; this on
    every input, also one that ends before the sentinel.  When the
    registry is empty, or the student is not found, the registry is
    unchanged and the failure is printed. *)
Theorem add_grades_frame (l : list Student) :
  (∀ lines, l = [] →
     run add_grades_for_student l lines =
       (mkWorld l lines [AddStudentFirst], Return tt))
  ∧ (∀ line rest, l ≠ [] → find_student l line = None →
       run add_grades_for_student l (line :: rest) =
         (mkWorld l rest [NotFound (Str.strip line)], Return tt))
  ∧ (∀ line rest i s, find_student l line = Some (i, s) →
       let l' := students (run add_grades_for_student l (line :: rest)).1 in
       length l' = length l
       ∧ (∀ j, j ≠ i → l' !! j = l !! j)
       ∧ ∃ gs, l' !! i = Some (mkStudent (name s) (grades s ++ gs))).
Proof.
  split_and!.
  - intros lines ->. apply add_grades_empty.
  - apply add_grades_not_found.
  - intros line rest i s Hf.
    destruct (add_grades_found_students _ _ rest _ _ Hf) as (gs & _ & Hl).
    destruct (find_student_lookup _ _ _ _ Hf) as (Hi & _ & _).
    cbv zeta. rewrite Hl. split_and!.
    + apply length_alter.
    + intros j Hj. by apply list_lookup_alter_ne.
    + exists gs. by rewrite list_lookup_alter_eq, Hi.
Qed.

Lemma add_grades_frame_witness :
  find_student [mkStudent "Ann" [70]; mkStudent "Bob" []] "bob" =
    Some (1%nat, mkStudent "Bob" [])
  ∧ (let l' := students (run add_grades_for_student
                           [mkStudent "Ann" [70]; mkStudent "Bob" []]
                           ["bob"; "50"; "x"]).1 in
     length l' = 2%nat
     ∧ (∀ j, j ≠ 1%nat → l' !! j = [mkStudent "Ann" [70]; mkStudent "Bob" []] !! j)
     ∧ ∃ gs, l' !! 1%nat = Some (mkStudent "Bob" ([] ++ gs)))
  ∧ find_student [mkStudent "Ann" [70]] "bob" = None
  ∧ run add_grades_for_student [mkStudent "Ann" [70]] ["bob"; "50"] =
      (mkWorld [mkStudent "Ann" [70]] ["50"] [NotFound "bob"], Return tt).
Proof.
  assert (Hf : find_student [mkStudent "Ann" [70]; mkStudent "Bob" []] "bob" =
               Some (1%nat, mkStudent "Bob" [])) by reflexivity.
  assert (Hn : find_student [mkStudent "Ann" [70]] "bob" = None) by reflexivity.
  split_and!; [exact Hf | | exact Hn |].
  - exact (proj2 (proj2 (add_grades_frame
                           [mkStudent "Ann" [70]; mkStudent "Bob" []]))
             "bob" ["50"; "x"] 1%nat (mkStudent "Bob" []) Hf).
  - apply (proj1 (proj2 (add_grades_frame [mkStudent "Ann" [70]]))
             "bob" ["50"]); [discriminate | exact Hn].
Defined.

(** ** The invariants of the registry *)

Lemma invariant_alter_extend l i gs :
  Forall (λ g, 0 ≤ g ≤ 100) gs → invariant l → invariant (alter (extend gs) i l).
Proof.
  intros Hgs (Hs & Hg & Hn). split_and!.
  - apply Forall_alter; [done|]. by intros [n g] _.
  - apply Forall_alter; [done|]. intros s _ H. simpl. by apply Forall_app.
  - unfold names_unique.
    rewrite (list_fmap_alter _ (extend gs) id), list_alter_id; [done..|].
    by apply Forall_true.
Qed.

Lemma invariant_add_student l lines :
  invariant l → invariant (students (run add_new_student l lines).1).
Proof.
  intros Hinv. destruct lines as [|raw rest]; [done|].
  unfold run. rewrite add_new_student_at.
  destruct (decide (Str.strip raw = "")); [done|].
  destruct (decide (Exists _ l)) as [|Hex]; [done|].
  destruct Hinv as (Hs & Hg & Hn). simpl. split_and!.
  - apply Forall_app. split; [done|]. constructor; [|done].
    unfold stripped. simpl. apply strip_idem.
  - apply Forall_app. split; [done|]. by repeat constructor.
  - unfold names_unique. rewrite fmap_app. apply NoDup_app. split_and!.
    + done.
    + intros x (s & -> & Hin)%list_elem_of_fmap Hx.
      apply list_elem_of_singleton in Hx. simpl in Hx.
      rewrite normalize_strip in Hx.
      apply Hex, Exists_exists. exists s. split; [done|].
      rewrite Forall_forall in Hs. by rewrite <- normalize_stripped by auto.
    + apply NoDup_singleton.
Qed.

Lemma reachable_invariant l : reachable l → invariant l.
Proof.
  induction 1 as [|l lines _ IH|l lines _ IH].
  - split_and!; [constructor..].
  - by apply invariant_add_student.
  - destruct (add_grades_students l lines) as (i & gs & Hgs & ->).
    by apply invariant_alter_extend.
Qed.

(** C5: in every registry that [add_new_student] and
    [add_grades_for_student] build from the empty registry, on any input,
    every grade of every student lies in [0, 100] and no two records have
    the same normalized name. *)
Theorem reachable_grades_names (l : list Student) :
  reachable l → grades_in_range l ∧ names_unique l.
Proof. intros H. by destruct (reachable_invariant l H) as (_ & ? & ?). Qed.

Lemma reachable_grades_names_witness :
  reachable [mkStudent "Ann" [50]; mkStudent "Bob" []]
  ∧ grades_in_range [mkStudent "Ann" [50]; mkStudent "Bob" []]
  ∧ names_unique [mkStudent "Ann" [50]; mkStudent "Bob" []].
Proof.
  assert (Hr : reachable [mkStudent "Ann" [50]; mkStudent "Bob" []]).
  { exact (reachable_add_student _ [" Bob "]
             (reachable_add_grades _ ["ANN"; "50"; "150"; "done"]
                (reachable_add_student _ ["ann"]
                   (reachable_add_student _ ["Ann "] reachable_empty)))). }
  split; [exact Hr|].
  exact (reachable_grades_names _ Hr).
Defined.

(** ** Averages, maxima and minima *)

Lemma float_lt_iff x y : float_lt x y = true ↔ (x < y)%Q.
Proof.
  unfold float_lt. rewrite negb_true_iff, <- not_true_iff_false, Qle_bool_iff.
  split; [apply Qnot_le_lt | apply Qlt_not_le].
Qed.

Lemma float_lt_false x y : float_lt x y = false ↔ (y <= x)%Q.
Proof. unfold float_lt. by rewrite negb_false_iff, Qle_bool_iff. Qed.

(** In-range grades give an average that fits a float. *)
Lemma sum_int_from x l : foldl Z.add x l = x + sum_int l.
Proof.
  revert x. unfold sum_int.
  induction l as [|a l IH]; intros x; simpl; [lia|].
  rewrite (IH (x + a)), (IH (0 + a)). lia.
Qed.

Lemma sum_int_bounds l :
  Forall (λ g, 0 ≤ g ≤ 100) l →
  0 ≤ sum_int l ≤ 100 * Z.of_nat (length l).
Proof.
  induction 1 as [|g l Hg _ IH]; [done|].
  unfold sum_int. simpl foldl. rewrite sum_int_from.
  rewrite length_cons. lia.
Qed.

Lemma too_large_bounded q : (Qabs q <= 100)%Q → Float.too_large q = false.
Proof.
  intros Hq. unfold Float.too_large. apply not_true_iff_false.
  rewrite Qle_bool_iff. intros Hle.
  assert (inject_Z (2 ^ 1024 - 2 ^ 970) <= 100)%Q as H
    by (eapply Qle_trans; [exact Hle | exact Hq]).
  revert H. apply Qlt_not_le. reflexivity.
Qed.

Lemma in_range_fits s :
  Forall (λ g, 0 ≤ g ≤ 100) (grades s) → overflows s = false.
Proof.
  intros Hs. unfold overflows, has_grades.
  destruct (grades s) as [|g gs] eqn:Eg; [done|]. simpl.
  apply too_large_bounded. unfold exact_avg. rewrite Eg.
  pose proof (sum_int_bounds _ Hs) as [H0 H1].
  set (n := Z.of_nat (length (g :: gs))) in *.
  assert (0 < n) by (subst n; rewrite length_cons; lia).
  assert (Hn : (0 < inject_Z n)%Q)
    by (change 0%Q with (inject_Z 0); by rewrite <- Zlt_Qlt).
  rewrite Qabs_pos.
  - apply Qle_shift_div_r; [done|].
    change 100%Q with (inject_Z 100).
    rewrite <- inject_Z_mult, <- Zle_Qle. lia.
  - apply Qle_shift_div_l; [done|]. rewrite Qmult_0_l.
    change 0%Q with (inject_Z 0). by rewrite <- Zle_Qle.
Qed.

Lemma grades_in_range_fits l :
  grades_in_range l → existsb overflows l = false.
Proof.
  intros Hl. apply not_true_iff_false. rewrite existsb_exists.
  intros (s & Hin & Hs). unfold grades_in_range in Hl.
  rewrite Forall_forall in Hl. rewrite in_range_fits in Hs; [done|].
  apply Hl. by apply list_elem_of_In.
Qed.

Lemma no_grades_fits l :
  Forall (λ s, grades s = []) l → existsb overflows l = false.
Proof.
  intros Hl. apply not_true_iff_false. rewrite existsb_exists.
  intros (s & Hin & Hs). rewrite Forall_forall in Hl.
  unfold overflows, has_grades in Hs.
  by rewrite Hl in Hs by (by apply list_elem_of_In).
Qed.

Lemma average_run s w :
  average s w =
    if decide (grades s = []) then (w, Raise ZeroDivisionError)
    else if overflows s then (w, Raise OverflowError)
    else (w, Return (avg_of s)).
Proof.
  unfold average, true_div, overflows, has_grades, avg_of.
  fold (exact_avg s).
  destruct (grades s) as [|g gs] eqn:Eg; [done|].
  rewrite decide_False by (simpl; lia). rewrite decide_False by done.
  simpl andb. by destruct (Float.too_large (exact_avg s)).
Qed.

Lemma with_grades_cons s l :
  with_grades (s :: l) =
    if decide (grades s = []) then with_grades l else s :: with_grades l.
Proof.
  unfold with_grades. rewrite filter_cons.
  destruct (decide (grades s = [])) as [E|E].
  - by rewrite decide_False by (by intros H; apply H).
  - by rewrite decide_True.
Qed.

Lemma with_grades_filter l : filter (λ s, has_grades s) l = with_grades l.
Proof.
  apply list_filter_iff. intros s. unfold has_grades.
  by destruct (grades s).
Qed.

Lemma with_grades_nil l : with_grades l = [] ↔ Forall (λ s, grades s = []) l.
Proof.
  induction l as [|s l IH]; [done|].
  rewrite with_grades_cons, Forall_cons.
  destruct (decide (grades s = [])) as [E|E]; [tauto|].
  split; [discriminate|tauto].
Qed.

Lemma with_grades_cons_iff l :
  with_grades l ≠ [] ↔ Exists (λ s, grades s ≠ []) l.
Proof.
  induction l as [|s l IH].
  - split; [done|]. intros H. inv H.
  - rewrite with_grades_cons, Exists_cons.
    destruct (decide (grades s = [])) as [E|E]; [tauto|].
    split; [tauto|discriminate].
Qed.

(** The scan of [max], with a key that does not raise on the items. *)
Lemma max_loop_run {A} (key : A → IO Q) (k : A → Q) (l : list A) :
  (∀ x w, x ∈ l → key x w = (w, Return (k x))) →
  ∀ best w, max_loop key best (k best) l w = (w, Return (first_max k best l)).
Proof.
  induction l as [|x r IH]; intros Hkey best w; [done|].
  simpl. unfold mbind, IO_bind. rewrite Hkey by apply list_elem_of_here.
  destruct (float_lt (k best) (k x)); apply IH; intros; apply Hkey;
    by apply list_elem_of_further.
Qed.

Lemma py_max_key_run {A} (key : A → IO Q) (k : A → Q) x (r : list A) w :
  (∀ y w, y ∈ x :: r → key y w = (w, Return (k y))) →
  py_max_key key (x :: r) w = (w, Return (first_max k x r)).
Proof.
  intros Hkey. unfold py_max_key, mbind, IO_bind.
  rewrite Hkey by apply list_elem_of_here.
  apply max_loop_run. intros. apply Hkey. by apply list_elem_of_further.
Qed.

Lemma first_max_ge {A} (k : A → Q) l : ∀ best, (k best <= k (first_max k best l))%Q.
Proof.
  induction l as [|x r IH]; intros best; simpl; [apply Qle_refl|].
  destruct (float_lt (k best) (k x)) eqn:E; [|apply IH].
  apply float_lt_iff in E. eapply Qle_trans; [by apply Qlt_le_weak|apply IH].
Qed.

(** The item [max] returns is the first of the greatest: every item
    before it has a smaller key, no item after it has a greater one. *)
Lemma first_max_split {A} (k : A → Q) l : ∀ best,
  ∃ l1 l2, best :: l = l1 ++ first_max k best l :: l2
           ∧ Forall (λ x, (k x < k (first_max k best l))%Q) l1
           ∧ Forall (λ x, (k x <= k (first_max k best l))%Q) l2.
Proof.
  induction l as [|x r IH]; intros best; simpl.
  { exists [], []. by repeat constructor. }
  destruct (float_lt (k best) (k x)) eqn:E.
  - apply float_lt_iff in E.
    destruct (IH x) as (l1 & l2 & Heq & H1 & H2).
    exists (best :: l1), l2. split_and!; [by rewrite Heq| |done].
    constructor; [|done].
    eapply Qlt_le_trans; [done|apply first_max_ge].
  - apply float_lt_false in E.
    destruct (IH best) as (l1 & l2 & Heq & H1 & H2).
    destruct l1 as [|b l1]; simpl in Heq; injection Heq as Hb Hr.
    + exists [], (x :: l2). split_and!.
      * simpl. by rewrite <- Hb, Hr.
      * done.
      * constructor; [by rewrite <- Hb|done].
    + exists (best :: x :: l1), l2. inv H1.
      split_and!; [simpl; by do 2 f_equal| |done].
      constructor; [done|]. constructor; [|done].
      eapply Qle_lt_trans; done.
Qed.




(** ** The report *)

Lemma report_lines_fits l :
  existsb overflows l = false → report_lines l = report_line <$> l.
Proof.
  induction l as [|s l IH]; [done|]. simpl.
  intros [-> Hl]%orb_false_iff. by rewrite IH.
Qed.

Lemma no_grades_no_overflow s : grades s = [] → overflows s = false.
Proof. intros Hs. unfold overflows, has_grades. by rewrite Hs. Qed.

(** The loop of the report in any state: it prints the lines of the
    students up to the first whose average does not fit a float, where it
    raises [OverflowError]; when there is none it returns the averages. *)
Lemma report_loop_run l : ∀ averages reg lines out,
  report_loop l averages (mkWorld reg lines out) =
    (mkWorld reg lines (out ++ report_lines l),
     if existsb overflows l then Raise OverflowError
     else Return (averages ++ (avg_of <$> with_grades l))).
Proof.
  induction l as [|s l IH]; intros averages reg lines out.
  - simpl. by rewrite !app_nil_r.
  - simpl. unfold mbind at 1. unfold IO_bind, except_zero_division.
    rewrite average_run, with_grades_cons. unfold report_line.
    destruct (decide (grades s = [])) as [E|E].
    + rewrite (no_grades_no_overflow s E). rewrite E. io_simpl.
      rewrite IH. by rewrite <- app_assoc.
    + destruct (overflows s); [by rewrite app_nil_r|].
      destruct (grades s) as [|g gs] eqn:Eg; [done|].
      io_simpl. rewrite IH. rewrite <- !app_assoc.
      by destruct (existsb overflows l).
Qed.

(** [show_report] in any state: it leaves the registry and the input
    as they are, prints [report_output], and returns unless an average
    does not fit a float. *)
Lemma show_report_at l lines out :
  show_report (mkWorld l lines out) =
    (mkWorld l lines (out ++ report_output l), float_outcome l).
Proof.
  unfold show_report, report_output, float_outcome. io_simpl.
  destruct (decide (l = [])) as [->|Hne]; [done|]. io_simpl.
  rewrite report_loop_run. simpl.
  destruct (existsb overflows l).
  { by rewrite app_nil_r, <- app_assoc. }
  destruct (decide (avg_of <$> with_grades l = [])) as [E|E].
  { simpl. by rewrite <- !app_assoc. }
  destruct (avg_of <$> with_grades l) as [|a r]; [done|].
  unfold py_max. rewrite (py_max_key_run _ id) by done.
  unfold py_min, float_div, mean. io_simpl.
  by rewrite <- !app_assoc.
Qed.

Lemma show_report_run l lines :
  run show_report l lines = (mkWorld l lines (report_output l), float_outcome l).
Proof. apply show_report_at. Qed.

Lemma report_output_aggregates l :
  existsb overflows l = false →
  with_grades l ≠ [] →
  report_output l =
    ReportHeader :: (report_line <$> l) ++
      [Rule; MaxAverage (maximum (avg_of <$> with_grades l));
       MinAverage (minimum (avg_of <$> with_grades l));
       OverallAverage (mean (avg_of <$> with_grades l)); Rule].
Proof.
  intros Hfit Hw. unfold report_output.
  rewrite decide_False by (by intros ->).
  rewrite Hfit, report_lines_fits by done.
  rewrite decide_False; [done|]. by destruct (with_grades l).
Qed.




(** C6, as the code has it: [show_report] does take the quotient by the
    length of an empty list of grades: the division raises
    [ZeroDivisionError] and the report catches it.  On every registry in
    which every average fits a float, which is so when the grades lie in
    [0, 100], the report returns; the line of a student without grades
    says that the average is not available, and is not a line with an
    average, 0 or another; the line of a student with grades gives the
    average; the maximum, the minimum and the overall average are printed
    exactly when some student has grades.  On a registry in which an
    average does not fit a float the report ends with [OverflowError] and
    prints no maximum, minimum or overall average. *)
Theorem show_report_total (l : list Student) (lines : list string) :
  (∀ s w, grades s = [] →
     average s w = (w, Raise ZeroDivisionError)
     ∧ except_zero_division (average s) w = (w, Return None))
  ∧ (grades_in_range l → existsb overflows l = false)
  ∧ (existsb overflows l = false →
     ∃ out,
       run show_report l lines = (mkWorld l lines out, Return tt)
       ∧ (∀ i s, l !! i = Some s → grades s = [] →
            out !! S i = Some (AverageNA (name s))
            ∧ ∀ q, out !! S i ≠ Some (Average (name s) q))
       ∧ (∀ i s, l !! i = Some s → grades s ≠ [] →
            out !! S i = Some (Average (name s) (avg_of s)))
       ∧ (Exists (λ o, is_aggregate o = true) out
          ↔ Exists (λ s, grades s ≠ []) l))
  ∧ (existsb overflows l = true →
     ∃ out,
       run show_report l lines = (mkWorld l lines out, Raise OverflowError)
       ∧ Forall (λ o, is_aggregate o = false) out).
Proof.
  split_and!.
  - intros s w Hg. unfold except_zero_division. rewrite average_run.
    by rewrite decide_True.
  - apply grades_in_range_fits.
  - intros Hfit. exists (report_output l). rewrite show_report_run.
    unfold float_outcome. rewrite Hfit. split; [done|].
    assert (Hline : ∀ i s, l !! i = Some s →
              report_output l !! S i = Some (report_line s)).
    { intros i s Hi. unfold report_output.
      rewrite decide_False by (by intros ->). simpl.
      rewrite report_lines_fits by done.
      rewrite lookup_app_l by (rewrite length_fmap; by eapply lookup_lt_Some).
      by rewrite list_lookup_fmap, Hi. }
    split_and!.
    + intros i s Hi Hg. rewrite (Hline i s Hi). unfold report_line. rewrite Hg.
      split; [done|]. intros q. discriminate.
    + intros i s Hi Hg. rewrite (Hline i s Hi). unfold report_line.
      by destruct (grades s).
    + rewrite <- with_grades_cons_iff. split.
      * intros Hagg Hw. unfold report_output in Hagg.
        rewrite Hfit, Hw, report_lines_fits in Hagg by done.
        simpl in Hagg. destruct (decide (l = [])).
        -- rewrite Exists_cons, Exists_nil in Hagg. simpl in Hagg.
           by destruct Hagg.
        -- rewrite Exists_cons, Exists_app, !Exists_cons, Exists_nil in Hagg.
           simpl in Hagg.
           destruct Hagg as [?|[Hagg|[?|[?|?]]]]; try done.
           apply Exists_fmap, Exists_exists in Hagg as (s & _ & Hs).
           unfold report_line in Hs. simpl in Hs. by destruct (grades s).
      * intros Hw. rewrite report_output_aggregates by done.
        apply Exists_cons_tl, Exists_app. right.
        by apply Exists_cons_tl, Exists_cons_hd.
  - intros Hov. exists (report_output l). rewrite show_report_run.
    unfold float_outcome. rewrite Hov. split; [done|].
    unfold report_output. rewrite Hov.
    destruct (decide (l = [])); [by repeat constructor|].
    rewrite app_nil_r. constructor; [done|].
    clear. induction l as [|s l IH]; [constructor|]. simpl.
    destruct (overflows s); constructor; [|done].
    unfold report_line. by destruct (grades s).
Qed.

Lemma show_report_total_witness :
  grades_in_range [mkStudent "Ann" [70; 80; 90]; mkStudent "Bob" []]
  ∧ existsb overflows [mkStudent "Ann" [70; 80; 90]; mkStudent "Bob" []] = false
  ∧ ∃ out,
      run show_report [mkStudent "Ann" [70; 80; 90]; mkStudent "Bob" []] [] =
        (mkWorld [mkStudent "Ann" [70; 80; 90]; mkStudent "Bob" []] [] out,
         Return tt)
      ∧ out !! 1%nat = Some (Average "Ann" (80 # 1))
      ∧ out !! 2%nat = Some (AverageNA "Bob").
Proof.
  assert (Hr : grades_in_range
                 [mkStudent "Ann" [70; 80; 90]; mkStudent "Bob" []])
    by (repeat constructor; lia).
  pose proof (proj1 (proj2 (show_report_total
                [mkStudent "Ann" [70; 80; 90]; mkStudent "Bob" []] [])) Hr) as Hf.
  split_and!; [exact Hr | exact Hf |].
  destruct (proj1 (proj2 (proj2 (show_report_total
              [mkStudent "Ann" [70; 80; 90]; mkStudent "Bob" []] []))) Hf)
    as (out & Hrun & Hna & Havg & _).
  exists out. split_and!; [exact Hrun | |].
  - exact (Havg 0%nat (mkStudent "Ann" [70; 80; 90]) eq_refl
             ltac:(discriminate)).
  - exact (proj1 (Hna 1%nat (mkStudent "Bob" []) eq_refl eq_refl)).
Defined.

(** C6 as stated fails twice.  The report is not total: on a grade of
    10^400 the quotient does not fit a float and [OverflowError] leaves
    [show_report].  And the quotient by the length of an empty list is
    taken: it is the [ZeroDivisionError] of that division that the report
    catches. *)
Lemma show_report_total_counterexample :
  ¬ (∀ (l : list Student) (lines : list string),
       ∃ w, run show_report l lines = (w, Return tt))
  ∧ average (mkStudent "Ann" []) (mkWorld [mkStudent "Ann" []] [] []) =
      (mkWorld [mkStudent "Ann" []] [] [], Raise ZeroDivisionError).
Proof.
  split; [|reflexivity]. intros H.
  destruct (H [mkStudent "A" [10 ^ 400]] []) as (w & Hrun).
  assert (Hr : (run show_report [mkStudent "A" [10 ^ 400]] []).2
               = Raise OverflowError) by (vm_compute; reflexivity).
  rewrite Hrun in Hr. discriminate Hr.
Qed.

(** ** The top performer *)

Lemma with_grades_elem s l : s ∈ with_grades l ↔ grades s ≠ [] ∧ s ∈ l.
Proof. unfold with_grades. by rewrite list_elem_of_filter. Qed.

Lemma first_max_elem {A} (k : A → Q) best (l : list A) :
  first_max k best l ∈ best :: l.
Proof.
  destruct (first_max_split k l best) as (l1 & l2 & Heq & _).
  set (m := first_max k best l) in *. rewrite Heq.
  apply elem_of_app. right. apply list_elem_of_here.
Qed.

Lemma overflows_with_grades l :
  existsb overflows (with_grades l) = existsb overflows l.
Proof.
  induction l as [|s l IH]; [done|]. rewrite with_grades_cons. simpl.
  destruct (decide (grades s = [])) as [E|E].
  - by rewrite (no_grades_no_overflow s E).
  - simpl. by rewrite IH.
Qed.

(** The scan of [max] over students with grades, one of which has an
    average that does not fit a float. *)
Lemma max_loop_overflow l : ∀ best v w,
  Forall (λ s, grades s ≠ []) l → existsb overflows l = true →
  max_loop average best v l w = (w, Raise OverflowError).
Proof.
  induction l as [|s l IH]; intros best v w Hg Hov; [done|].
  inv Hg. simpl in *. unfold mbind, IO_bind. rewrite average_run.
  rewrite decide_False by done.
  destruct (overflows s); [done|]. simpl in Hov.
  destruct (float_lt v (avg_of s)); by apply IH.
Qed.

Lemma py_max_key_overflow l w :
  Forall (λ s, grades s ≠ []) l → existsb overflows l = true →
  py_max_key average l w = (w, Raise OverflowError).
Proof.
  destruct l as [|s l]; [done|]. intros Hg Hov. inv Hg.
  unfold py_max_key, mbind, IO_bind. rewrite average_run.
  rewrite decide_False by done. simpl in Hov.
  destruct (overflows s); [done|]. by apply max_loop_overflow.
Qed.

(** [find_top_performer] in any state: it leaves the registry and the
    input as they are, prints [top_lines], and returns unless an average
    does not fit a float. *)
Lemma find_top_performer_at l lines out :
  find_top_performer (mkWorld l lines out) =
    (mkWorld l lines (out ++ top_lines l), float_outcome l).
Proof.
  unfold find_top_performer, top_lines, top_output, float_outcome. io_simpl.
  destruct (decide (l = [])) as [->|Hne]; [done|].
  rewrite with_grades_filter, <- (overflows_with_grades l).
  destruct (with_grades l) as [|s r] eqn:Ew; [done|].
  rewrite decide_False by done. io_simpl.
  assert (Hg : Forall (λ y, grades y ≠ []) (s :: r)).
  { apply Forall_forall. intros y Hy. rewrite <- Ew in Hy.
    by apply with_grades_elem in Hy as [? _]. }
  destruct (existsb overflows (s :: r)) eqn:Hov; pose proof Hov as Hov';
    simpl in Hov'; rewrite Hov'.
  { rewrite py_max_key_overflow by done. by rewrite app_nil_r. }
  assert (Hkey : ∀ y w, y ∈ s :: r → average y w = (w, Return (avg_of y))).
  { intros y w Hy. rewrite average_run.
    rewrite Forall_forall in Hg. rewrite decide_False by auto.
    assert (overflows y = false) as ->; [|done].
    apply not_true_iff_false. intros Hy'.
    apply not_true_iff_false in Hov. apply Hov, existsb_exists.
    exists y. split; [by apply list_elem_of_In|done]. }
  rewrite (py_max_key_run _ avg_of) by done.
  by rewrite Hkey by apply first_max_elem.
Qed.

Lemma find_top_performer_run l lines :
  run find_top_performer l lines = (mkWorld l lines (top_lines l), float_outcome l).
Proof. apply find_top_performer_at. Qed.

(** Where the filtered list splits, the list splits. *)
Lemma with_grades_split l : ∀ l1 s l2,
  with_grades l = l1 ++ s :: l2 →
  ∃ k1 k2, l = k1 ++ s :: k2 ∧ with_grades k1 = l1 ∧ with_grades k2 = l2.
Proof.
  induction l as [|x l IH]; intros l1 s l2 Heq.
  { by destruct l1. }
  rewrite with_grades_cons in Heq.
  destruct (decide (grades x = [])) as [E|E].
  - destruct (IH _ _ _ Heq) as (k1 & k2 & -> & H1 & H2).
    exists (x :: k1), k2. split_and!; [done| |done].
    rewrite with_grades_cons. by rewrite decide_True.
  - destruct l1 as [|y l1]; simpl in Heq; injection Heq as -> Heq.
    + exists [], l. by split_and!.
    + destruct (IH _ _ _ Heq) as (k1 & k2 & -> & H1 & H2).
      exists (y :: k1), k2. split_and!; [done| |done].
      rewrite with_grades_cons. rewrite decide_False by done. by f_equal.
Qed.

(** ** Averages that differ and round to the same float *)

Lemma sum_int_hundreds (n : nat) :
  sum_int (replicate n 100 ++ [99]) = 100 * Z.of_nat n + 99.
Proof.
  unfold sum_int. rewrite foldl_app. simpl.
  assert (H : ∀ a, foldl Z.add a (replicate n 100) = a + 100 * Z.of_nat n).
  { induction n as [|n IH]; intros a; [simpl; lia|].
    rewrite Nat2Z.inj_succ. simpl. rewrite IH. lia. }
  rewrite H. lia.
Qed.

Lemma exact_avg_hundreds n (z : Z) :
  0 ≤ z →
  exact_avg (hundreds_and_99 n z) =
    (inject_Z (100 * z + 99) / inject_Z (z + 1))%Q.
Proof.
  intros Hz. unfold exact_avg, hundreds_and_99. cbn [grades].
  rewrite sum_int_hundreds, length_app, length_replicate.
  cbn [length]. rewrite Nat2Z.inj_add, Z2Nat.id by done. done.
Qed.

Lemma hundreds_in_range n z :
  Forall (λ g, 0 ≤ g ≤ 100) (grades (hundreds_and_99 n z)).
Proof.
  unfold hundreds_and_99. cbn [grades].
  apply Forall_app. split; [apply Forall_replicate; lia|].
  apply Forall_cons. split; [lia|apply Forall_nil_2].
Qed.

Lemma hundreds_not_nil n z : grades (hundreds_and_99 n z) ≠ [].
Proof.
  unfold hundreds_and_99. cbn [grades]. intros [_ ?]%app_eq_nil. discriminate.
Qed.

(** Of two students with grades and the same float for average,
    [find_top_performer] names the first. *)
Lemma find_top_performer_tie (a b : Student) lines :
  grades a ≠ [] → grades b ≠ [] → existsb overflows [a; b] = false →
  avg_of a = avg_of b →
  run find_top_performer [a; b] lines =
    (mkWorld [a; b] lines [TopStudent (name a) (avg_of a)], Return tt).
Proof.
  intros Hga Hgb Hfit Heq. rewrite find_top_performer_run.
  unfold top_lines, float_outcome. rewrite Hfit.
  unfold top_output. rewrite decide_False by done.
  rewrite !with_grades_cons. rewrite !decide_False by done.
  change (with_grades []) with (@nil Student).
  cbv zeta. cbn [first_max]. rewrite <- Heq.
  assert (float_lt (avg_of a) (avg_of a) = false) as ->; [|done].
  unfold float_lt. apply negb_false_iff, Qle_bool_iff, Qle_refl.
Qed.

(** So the student named is not always one whose exact average is the
    greatest. *)
Lemma exact_reading_fails (a b : Student) :
  name a ≠ name b → grades a ≠ [] → grades b ≠ [] →
  existsb overflows [a; b] = false →
  avg_of a = avg_of b → (exact_avg a < exact_avg b)%Q →
  ¬ ∃ l1 s l2,
      [a; b] = l1 ++ s :: l2
      ∧ Forall (λ x, grades x ≠ [] → (exact_avg x <= exact_avg s)%Q) l2
      ∧ run find_top_performer [a; b] [] =
          (mkWorld [a; b] [] [TopStudent (name s) (avg_of s)], Return tt).
Proof.
  intros Hn Hga Hgb Hfit Heq Hlt (l1 & s & l2 & Hl & H2 & Hrun).
  rewrite find_top_performer_tie in Hrun by done.
  injection Hrun as Hname _.
  destruct l1 as [|x l1]; simpl in Hl.
  - injection Hl as <- <-. inv H2.
    apply (Qlt_not_le _ _ Hlt). auto.
  - injection Hl as <- Hl. destruct l1 as [|y l1]; simpl in Hl.
    + injection Hl as <- _. done.
    + injection Hl as _ Hl. by destruct l1.
Qed.

(** C4: when some student has grades and every average fits a float,
    as it does when the grades are between 0 and 100,
    [find_top_performer] names the first student, in registry order,
    whose average (the float nearest to the sum of the grades divided by
    their number) is the greatest among the students that have grades: a
    student with grades that comes before has a smaller average, and one
    that comes after has no greater one.  When an average does not fit a
    float it prints nothing and raises [OverflowError].  For A = [80]
    then B = [80] it names A.  On the empty registry it prints that
    there are no students, and on a registry without any grade that no
    grades are available. *)
Theorem find_top_performer_spec :
  (∀ (l : list Student) (lines : list string),
     Exists (λ s, grades s ≠ []) l →
     existsb overflows l = false →
     ∃ l1 s l2,
       l = l1 ++ s :: l2
       ∧ grades s ≠ []
       ∧ Forall (λ x, grades x ≠ [] → (avg_of x < avg_of s)%Q) l1
       ∧ Forall (λ x, grades x ≠ [] → (avg_of x <= avg_of s)%Q) l2
       ∧ run find_top_performer l lines =
           (mkWorld l lines [TopStudent (name s) (avg_of s)], Return tt))
  ∧ (∀ l : list Student, grades_in_range l → existsb overflows l = false)
  ∧ (∀ (l : list Student) (lines : list string),
       existsb overflows l = true →
       run find_top_performer l lines =
         (mkWorld l lines [], Raise OverflowError))
  ∧ run find_top_performer [mkStudent "A" [80]; mkStudent "B" [80]] [] =
      (mkWorld [mkStudent "A" [80]; mkStudent "B" [80]] []
         [TopStudent "A" (80 # 1)], Return tt)
  ∧ (∀ lines,
       run find_top_performer [] lines =
         (mkWorld [] lines [NoStudentsFound], Return tt))
  ∧ (∀ (l : list Student) (lines : list string),
       l ≠ [] → Forall (λ s, grades s = []) l →
       run find_top_performer l lines =
         (mkWorld l lines [NoGradesAvailable], Return tt)).
Proof.
  split_and!.
  - intros l lines Hex%with_grades_cons_iff Hov.
    rewrite find_top_performer_run. unfold top_lines, float_outcome, top_output.
    rewrite Hov. rewrite decide_False by (by intros ->).
    destruct (with_grades l) as [|s r] eqn:Ew; [done|]. cbv zeta.
    destruct (first_max_split avg_of r s) as (l1 & l2 & Heq & H1 & H2).
    set (top := first_max avg_of s r) in *.
    rewrite <- Ew in Heq.
    destruct (with_grades_split _ _ _ _ Heq) as (k1 & k2 & Hl & Hk1 & Hk2).
    exists k1, top, k2. split_and!; [done| | | |done].
    + assert (Hin : top ∈ with_grades l).
      { rewrite Heq. apply elem_of_app. right. apply list_elem_of_here. }
      by apply with_grades_elem in Hin as [? _].
    + apply Forall_forall. intros x Hx Hg. rewrite Forall_forall in H1.
      apply H1. rewrite <- Hk1. by apply with_grades_elem.
    + apply Forall_forall. intros x Hx Hg. rewrite Forall_forall in H2.
      apply H2. rewrite <- Hk2. by apply with_grades_elem.
  - apply grades_in_range_fits.
  - intros l lines Hov. rewrite find_top_performer_run.
    unfold top_lines, float_outcome. by rewrite Hov.
  - vm_compute. reflexivity.
  - intros lines. by rewrite find_top_performer_run.
  - intros l lines Hne Hall. pose proof (no_grades_fits l Hall) as Hov.
    apply with_grades_nil in Hall.
    rewrite find_top_performer_run. unfold top_lines, float_outcome, top_output.
    rewrite Hov. rewrite decide_False by done. by rewrite Hall.
Qed.

Lemma find_top_performer_spec_witness :
  Exists (λ s, grades s ≠ [])
    [mkStudent "A" [70; 90]; mkStudent "N" []; mkStudent "B" [85];
     mkStudent "C" [85; 85]]
  ∧ existsb overflows
      [mkStudent "A" [70; 90]; mkStudent "N" []; mkStudent "B" [85];
       mkStudent "C" [85; 85]] = false
  ∧ ∃ l1 s l2,
      [mkStudent "A" [70; 90]; mkStudent "N" []; mkStudent "B" [85];
       mkStudent "C" [85; 85]] = l1 ++ s :: l2
      ∧ grades s ≠ []
      ∧ Forall (λ x, grades x ≠ [] → (avg_of x < avg_of s)%Q) l1
      ∧ Forall (λ x, grades x ≠ [] → (avg_of x <= avg_of s)%Q) l2
      ∧ run find_top_performer
          [mkStudent "A" [70; 90]; mkStudent "N" []; mkStudent "B" [85];
           mkStudent "C" [85; 85]] [] =
          (mkWorld [mkStudent "A" [70; 90]; mkStudent "N" []; mkStudent "B" [85];
                    mkStudent "C" [85; 85]] []
             [TopStudent (name s) (avg_of s)], Return tt).
Proof.
  assert (He : Exists (λ s, grades s ≠ [])
                 [mkStudent "A" [70; 90]; mkStudent "N" []; mkStudent "B" [85];
                  mkStudent "C" [85; 85]])
    by (apply Exists_cons_hd; discriminate).
  assert (Hov : existsb overflows
                  [mkStudent "A" [70; 90]; mkStudent "N" []; mkStudent "B" [85];
                   mkStudent "C" [85; 85]] = false)
    by (vm_compute; reflexivity).
  split; [exact He|]. split; [exact Hov|].
  exact (proj1 find_top_performer_spec _ [] He Hov).
Defined.

(** C4 as stated fails twice.  On the registry of one student whose one
    grade is 10^400, [find_top_performer] names no student: it raises
    [OverflowError].  And with grades between 0 and 100, the student it
    names is not always one whose exact average is the greatest: for A
    with 2^24 - 1 grades of 100 and one of 99, then B with 2^24 grades of
    100 and one of 99, the average of B is greater, the two round to the
    same float, and [find_top_performer] names A. *)
Lemma find_top_performer_float_counterexample :
  ¬ (∀ (l : list Student) (lines : list string),
       Exists (λ s, grades s ≠ []) l →
       ∃ s out,
         s ∈ l
         ∧ run find_top_performer l lines = (mkWorld l lines out, Return tt)
         ∧ TopStudent (name s) (avg_of s) ∈ out)
  ∧ ¬ (∀ (l : list Student) (lines : list string),
         grades_in_range l →
         Exists (λ s, grades s ≠ []) l →
         ∃ l1 s l2,
           l = l1 ++ s :: l2
           ∧ grades s ≠ []
           ∧ Forall (λ x, grades x ≠ [] → (exact_avg x < exact_avg s)%Q) l1
           ∧ Forall (λ x, grades x ≠ [] → (exact_avg x <= exact_avg s)%Q) l2
           ∧ run find_top_performer l lines =
               (mkWorld l lines [TopStudent (name s) (avg_of s)], Return tt))
  ∧ (let a := hundreds_and_99 "A" (2 ^ 24 - 1) in
     let b := hundreds_and_99 "B" (2 ^ 24) in
     grades_in_range [a; b]
     ∧ (exact_avg a < exact_avg b)%Q
     ∧ avg_of a = avg_of b
     ∧ run find_top_performer [a; b] [] =
         (mkWorld [a; b] [] [TopStudent "A" (avg_of a)], Return tt)).
Proof.
  assert (Ha : exact_avg (hundreds_and_99 "A" (2 ^ 24 - 1)) =
               (inject_Z (100 * (2 ^ 24 - 1) + 99) / inject_Z (2 ^ 24 - 1 + 1))%Q)
    by (apply exact_avg_hundreds; lia).
  assert (Hb : exact_avg (hundreds_and_99 "B" (2 ^ 24)) =
               (inject_Z (100 * 2 ^ 24 + 99) / inject_Z (2 ^ 24 + 1))%Q)
    by (apply exact_avg_hundreds; lia).
  assert (Hr : grades_in_range
                 [hundreds_and_99 "A" (2 ^ 24 - 1); hundreds_and_99 "B" (2 ^ 24)]).
  { apply Forall_cons. split; [apply hundreds_in_range|].
    apply Forall_cons. split; [apply hundreds_in_range|]. apply Forall_nil_2. }
  assert (Heq : avg_of (hundreds_and_99 "A" (2 ^ 24 - 1)) =
                avg_of (hundreds_and_99 "B" (2 ^ 24))).
  { unfold avg_of. rewrite Ha, Hb. vm_compute. reflexivity. }
  assert (Hlt : (exact_avg (hundreds_and_99 "A" (2 ^ 24 - 1)) <
                 exact_avg (hundreds_and_99 "B" (2 ^ 24)))%Q).
  { rewrite Ha, Hb. vm_compute. reflexivity. }
  pose proof (grades_in_range_fits _ Hr) as Hfit.
  split; [|split].
  - intros H.
    destruct (H [mkStudent "A" [10 ^ 400]] []) as (s & out & _ & Hrun & _).
    { apply Exists_cons_hd. discriminate. }
    assert (Hv : (run find_top_performer [mkStudent "A" [10 ^ 400]] []).2
                 = Raise OverflowError) by (vm_compute; reflexivity).
    rewrite Hrun in Hv. discriminate Hv.
  - intros H.
    destruct (H _ [] Hr) as (l1 & s & l2 & Hl & _ & _ & H2 & Hrun).
    { apply Exists_cons_hd, hundreds_not_nil. }
    apply (exact_reading_fails (hundreds_and_99 "A" (2 ^ 24 - 1))
             (hundreds_and_99 "B" (2 ^ 24)));
      [discriminate | apply hundreds_not_nil | apply hundreds_not_nil
      | exact Hfit | exact Heq | exact Hlt |].
    exists l1, s, l2. split; [exact Hl|]. split; [exact H2|exact Hrun].
  - cbv zeta. split; [exact Hr|]. split; [exact Hlt|]. split; [exact Heq|].
    apply (find_top_performer_tie (hundreds_and_99 "A" (2 ^ 24 - 1))
             (hundreds_and_99 "B" (2 ^ 24)) []);
      [apply hundreds_not_nil | apply hundreds_not_nil | exact Hfit | exact Heq].
Qed.

(** ** Read-only operations *)

(** C10: [show_report] and [find_top_performer] leave the registry as it
    was, the same records with the same names and grades in the same
    order, in every state: whatever the registry, the pending input and
    the output so far. *)
Theorem report_and_top_read_only (w : World) :
  students (show_report w).1 = students w
  ∧ students (find_top_performer w).1 = students w.
Proof.
  destruct w as [l lines out].
  by rewrite show_report_at, find_top_performer_at.
Qed.

(** ** The menu loop *)

Lemma while_fuel_S fuel body w :
  while_fuel (S fuel) body w =
    match body w with
    | (w', Return Break) => (w', Return tt)
    | (w', Return Continue) => while_fuel fuel body w'
    | (w', Raise e) => (w', Raise e)
    | (w', OutOfFuel) => (w', OutOfFuel)
    end.
Proof.
  simpl. unfold mbind, IO_bind. by destruct (body w) as [w' [[]|e|]].
Qed.

(** One round of the menu, by the line it reads. *)
Lemma main_round_not_number l line rest out :
  Str.int line = None →
  main_round (mkWorld l (line :: rest) out) =
    (mkWorld l rest (out ++ [Menu; ChoiceNotNumber]), Return Continue).
Proof.
  intros Hp. unfold main_round. io_simpl. rewrite int_strip, Hp. io_simpl.
  by rewrite <- app_assoc.
Qed.

Lemma main_round_out_of_range l line rest out n :
  Str.int line = Some n → ¬ 1 ≤ n ≤ 5 →
  main_round (mkWorld l (line :: rest) out) =
    (mkWorld l rest (out ++ [Menu; ChoiceOutOfRange]), Return Continue).
Proof.
  intros Hp Hn. unfold main_round. io_simpl. rewrite int_strip, Hp.
  repeat (rewrite decide_False by lia). io_simpl.
  by rewrite <- app_assoc.
Qed.

Lemma main_round_exit l line rest out :
  Str.int line = Some 5 →
  main_round (mkWorld l (line :: rest) out) =
    (mkWorld l rest (out ++ [Menu; Exiting]), Return Break).
Proof.
  intros Hp. unfold main_round. io_simpl. rewrite int_strip, Hp. io_simpl.
  by rewrite <- app_assoc.
Qed.

(** C9: in every state of the registry, a round of the menu loop that
    reads a line that is not an integer, or an integer outside 1..5,
    prints an invalid-choice message, leaves the registry as it is and
    the loop goes on with the next line; a round that reads 5 prints the
    farewell and the loop ends there, without an exception, the registry
    unchanged.  The line 6 is such an invalid choice, and on the single
    line 5 the program ends. *)
Theorem main_round_spec (l : list Student) (line : string)
    (rest : list string) (out : list Out) (fuel : nat) :
  (Str.int line = None →
     main_round (mkWorld l (line :: rest) out) =
       (mkWorld l rest (out ++ [Menu; ChoiceNotNumber]), Return Continue)
     ∧ while_fuel (S fuel) main_round (mkWorld l (line :: rest) out) =
         while_fuel fuel main_round
           (mkWorld l rest (out ++ [Menu; ChoiceNotNumber])))
  ∧ (∀ n, Str.int line = Some n → ¬ 1 ≤ n ≤ 5 →
     main_round (mkWorld l (line :: rest) out) =
       (mkWorld l rest (out ++ [Menu; ChoiceOutOfRange]), Return Continue)
     ∧ while_fuel (S fuel) main_round (mkWorld l (line :: rest) out) =
         while_fuel fuel main_round
           (mkWorld l rest (out ++ [Menu; ChoiceOutOfRange])))
  ∧ (Str.int line = Some 5 →
     main_round (mkWorld l (line :: rest) out) =
       (mkWorld l rest (out ++ [Menu; Exiting]), Return Break)
     ∧ while_true main_round (mkWorld l (line :: rest) out) =
         (mkWorld l rest (out ++ [Menu; Exiting]), Return tt))
  ∧ main_round (mkWorld l ("6" :: rest) out) =
      (mkWorld l rest (out ++ [Menu; ChoiceOutOfRange]), Return Continue)
  ∧ main ["5"] = (mkWorld [] [] [Menu; Exiting], Return tt).
Proof.
  split_and!.
  - intros Hp. split; [by apply main_round_not_number|].
    by rewrite while_fuel_S, main_round_not_number.
  - intros n Hp Hn. split; [by eapply main_round_out_of_range|].
    by rewrite while_fuel_S, (main_round_out_of_range _ _ _ _ n).
  - intros Hp. split; [by apply main_round_exit|].
    unfold while_true. by rewrite while_fuel_S, main_round_exit.
  - apply (main_round_out_of_range _ _ _ _ 6); [reflexivity | lia].
  - reflexivity.
Qed.

Lemma main_round_spec_witness :
  Str.int "x" = None
  ∧ main_round (mkWorld [mkStudent "Ann" [50]] ["x"; "5"] []) =
      (mkWorld [mkStudent "Ann" [50]] ["5"] [Menu; ChoiceNotNumber],
       Return Continue)
  ∧ Str.int "0" = Some 0
  ∧ main_round (mkWorld [mkStudent "Ann" [50]] ["0"; "5"] []) =
      (mkWorld [mkStudent "Ann" [50]] ["5"] [Menu; ChoiceOutOfRange],
       Return Continue)
  ∧ Str.int " +5 " = Some 5
  ∧ while_true main_round (mkWorld [mkStudent "Ann" [50]] [" +5 "; "1"] []) =
      (mkWorld [mkStudent "Ann" [50]] ["1"] [Menu; Exiting], Return tt).
Proof.
  assert (Hx : Str.int "x" = None) by reflexivity.
  assert (H0 : Str.int "0" = Some 0) by reflexivity.
  assert (H5 : Str.int " +5 " = Some 5) by reflexivity.
  split_and!; [exact Hx | | exact H0 | | exact H5 |].
  - exact (proj1 (proj1 (main_round_spec [mkStudent "Ann" [50]] "x" ["5"] [] 0)
                    Hx)).
  - apply (proj1 (proj2 (main_round_spec [mkStudent "Ann" [50]] "0" ["5"] [] 0))
             0 H0). lia.
  - exact (proj2 (proj1 (proj2 (proj2
             (main_round_spec [mkStudent "Ann" [50]] " +5 " ["1"] [] 0))) H5)).
Defined.

(** The scenario of the specification, from the empty registry: a
    report, a student, a report, three tokens and the sentinel, a report,
    the top performer, an invalid choice and the exit. *)
Example main_scenario :
  main ["3"; "1"; "Ann"; "3"; "2"; "ann"; "50"; "notanumber"; "150"; "done";
        "3"; "4"; "6"; "5"] =
    (mkWorld [mkStudent "Ann" [50]] []
       [Menu; NoStudentsToReport;
        Menu; Added "Ann";
        Menu; ReportHeader; AverageNA "Ann"; NoGradesYet; Rule;
        Menu; InvalidNumber; InvalidGrade; GradesUpdated "Ann" 1;
        Menu; ReportHeader; Average "Ann" (50 # 1); Rule; MaxAverage (50 # 1);
          MinAverage (50 # 1); OverallAverage (Finite (50 # 1)); Rule;
        Menu; TopStudent "Ann" (50 # 1);
        Menu; ChoiceOutOfRange;
        Menu; Exiting],
     Return tt).
Proof. vm_compute. reflexivity. Qed.

(** ** The loops have fuel enough *)

Lemma while_fuel_reads_on (body : IO ctl) :
  reads_on body →
  (∀ w w', body w = (w', Return Continue) →
           (length (stdin w') < length (stdin w))%nat) →
  ∀ fuel w, (length (stdin w) < fuel)%nat →
    ends_well (while_fuel fuel body w).2
    ∧ (length (stdin (while_fuel fuel body w).1) ≤ length (stdin w))%nat.
Proof.
  intros Hbody Hstep. induction fuel as [|fuel IH]; intros w Hfuel; [lia|].
  rewrite while_fuel_S. destruct (Hbody w) as [Hok Hlen].
  destruct (body w) as [w' [[]|e|]] eqn:Eb; simpl in *; try done.
  specialize (Hstep w w' Eb).
  destruct (IH w') as [Hok' Hlen']; [lia|]. split; [done|lia].
Qed.

Lemma while_true_reads_on (body : IO ctl) :
  reads_on body →
  (∀ w w', body w = (w', Return Continue) →
           (length (stdin w') < length (stdin w))%nat) →
  reads_on (while_true body).
Proof.
  intros Hbody Hstep w. unfold while_true.
  apply while_fuel_reads_on; [done..|lia].
Qed.

(** With fuel enough, more fuel changes nothing. *)
Lemma while_fuel_more (body : IO ctl) :
  (∀ w w', body w = (w', Return Continue) →
           (length (stdin w') < length (stdin w))%nat) →
  ∀ fuel fuel' w, (length (stdin w) < fuel)%nat → (fuel ≤ fuel')%nat →
    while_fuel fuel' body w = while_fuel fuel body w.
Proof.
  intros Hstep. induction fuel as [|fuel IH]; intros fuel' w Hfuel Hle; [lia|].
  destruct fuel' as [|fuel']; [lia|]. rewrite !while_fuel_S.
  destruct (body w) as [w' [[]|e|]] eqn:Eb; try done.
  specialize (Hstep w w' Eb). apply IH; lia.
Qed.

Lemma read_grade_reads_on i : reads_on (read_grade i).
Proof.
  intros [l [|tok rest] out]; [by rewrite read_grade_eof|].
  rewrite read_grade_step.
  destruct (decide (is_done tok)); [simpl; split; [done|lia]|].
  destruct (judge tok); simpl; split; (done || lia).
Qed.

Lemma read_grade_continue i w w' :
  read_grade i w = (w', Return Continue) →
  (length (stdin w') < length (stdin w))%nat.
Proof.
  destruct w as [l [|tok rest] out]; [by rewrite read_grade_eof|].
  rewrite read_grade_step.
  destruct (decide (is_done tok)); [done|].
  destruct (judge tok); intros [= <-]; simpl; lia.
Qed.

Lemma add_new_student_reads_on : reads_on add_new_student.
Proof.
  intros [l [|raw rest] out]; [done|]. rewrite add_new_student_at.
  destruct (decide (Str.strip raw = "")); [simpl; split; [done|lia]|].
  destruct (decide (Exists _ l)); simpl; split; (done || lia).
Qed.

Lemma add_grades_reads_on : reads_on add_grades_for_student.
Proof.
  intros [l lines out].
  destruct (decide (l = [])) as [->|Hne]; [done|].
  destruct lines as [|line rest].
  { unfold add_grades_for_student. io_simpl. by rewrite decide_False. }
  destruct (find_student l line) as [[i s]|] eqn:Hf.
  - rewrite (add_grades_found _ _ _ _ _ _ Hf). cbv zeta.
    destruct (while_true_reads_on (read_grade i) (read_grade_reads_on i)
                (read_grade_continue i) (mkWorld l rest out)) as [Hok Hlen].
    destruct (while_true (read_grade i) _) as [w' [[]|e|]]; simpl in *;
      split; (done || lia).
  - unfold add_grades_for_student. io_simpl. rewrite decide_False by done.
    io_simpl. rewrite find_student_strip, Hf. simpl. split; [done|lia].
Qed.

(** [show_report] and [find_top_performer] read nothing, and end well
    when the grades are between 0 and 100. *)
Lemma show_report_reads_on w :
  (grades_in_range (students w) → ends_well (show_report w).2)
  ∧ (length (stdin (show_report w).1) ≤ length (stdin w))%nat.
Proof.
  destruct w as [l lines out]. rewrite show_report_at. split; [|done].
  intros Hl%grades_in_range_fits. unfold float_outcome. simpl in *. by rewrite Hl.
Qed.

Lemma find_top_performer_reads_on w :
  (grades_in_range (students w) → ends_well (find_top_performer w).2)
  ∧ (length (stdin (find_top_performer w).1) ≤ length (stdin w))%nat.
Proof.
  destruct w as [l lines out]. rewrite find_top_performer_at. split; [|done].
  intros Hl%grades_in_range_fits. unfold float_outcome. simpl in *. by rewrite Hl.
Qed.

(** A round of the menu that runs the operation [op]. *)
Lemma dispatch_reads_on (op : IO unit) (P : Prop) l rest out :
  (P → ends_well (op (mkWorld l rest out)).2)
  ∧ (length (stdin (op (mkWorld l rest out)).1) ≤ length rest)%nat →
  let r := (op ;; mret Continue) (mkWorld l rest out) in
  (P → ends_well r.2) ∧ (length (stdin r.1) ≤ length rest)%nat.
Proof.
  intros [Hok Hlen]. unfold mbind, IO_bind, mret, IO_ret. cbv zeta.
  by destruct (op _) as [w' [[]|e|]].
Qed.

Lemma main_round_cases l line rest out :
  let r := main_round (mkWorld l (line :: rest) out) in
  (grades_in_range l → ends_well r.2) ∧ (length (stdin r.1) ≤ length rest)%nat.
Proof.
  unfold main_round. io_simpl.
  destruct (Str.int (Str.strip line)) as [choice|]; [|simpl; split; [done|lia]].
  pose proof (λ op, dispatch_reads_on op (grades_in_range l) l rest (out ++ [Menu]))
    as Hd.
  unfold mbind, IO_bind, mret, IO_ret in Hd. cbv zeta in Hd.
  destruct (decide (choice = 1)).
  { apply Hd. destruct (add_new_student_reads_on (mkWorld l rest (out ++ [Menu]))).
    by split. }
  destruct (decide (choice = 2)).
  { apply Hd. destruct (add_grades_reads_on (mkWorld l rest (out ++ [Menu]))).
    by split. }
  destruct (decide (choice = 3)).
  { apply Hd. apply (show_report_reads_on (mkWorld l rest (out ++ [Menu]))). }
  destruct (decide (choice = 4)).
  { apply Hd. apply (find_top_performer_reads_on (mkWorld l rest (out ++ [Menu]))). }
  destruct (decide (choice = 5)); simpl; split; (done || lia).
Qed.

Lemma main_round_ends_well w :
  grades_in_range (students w) → ends_well (main_round w).2.
Proof.
  destruct w as [l [|line rest] out]; [done|].
  apply (main_round_cases l line rest out).
Qed.

Lemma main_round_continue w w' :
  main_round w = (w', Return Continue) →
  (length (stdin w') < length (stdin w))%nat.
Proof.
  destruct w as [l [|line rest] out]; [done|].
  intros Hr. destruct (main_round_cases l line rest out) as [_ Hlen].
  rewrite Hr in Hlen. simpl in *. lia.
Qed.

(** * More on the program *)

(** ** What the operations do to the registry *)

Lemma then_continue_students (op : IO unit) w :
  students ((op ;; mret Continue) w).1 = students (op w).1.
Proof.
  unfold mbind, IO_bind, mret, IO_ret. by destruct (op w) as [w' [[]|e|]].
Qed.

Lemma add_new_student_step w : step (students w) (students (add_new_student w).1).
Proof.
  destruct w as [l [|raw rest] out]; [apply step_same|].
  rewrite add_new_student_at.
  destruct (decide (Str.strip raw = "")); [apply step_same|].
  destruct (decide (Exists _ l)) as [|Hex]; [apply step_same|].
  simpl. apply step_add; [done|].
  destruct (find_student l raw) as [p|] eqn:Hf; [|done].
  destruct Hex. apply find_student_is_Some. by rewrite Hf.
Qed.

Lemma add_grades_step w :
  step (students w) (students (add_grades_for_student w).1).
Proof.
  destruct w as [l lines out].
  destruct (decide (l = [])) as [->|Hne]; [apply step_same|].
  destruct lines as [|line rest].
  { unfold add_grades_for_student. io_simpl. rewrite decide_False by done.
    apply step_same. }
  destruct (find_student l line) as [[i s]|] eqn:Hf.
  - rewrite (add_grades_found _ _ _ _ _ _ Hf). unfold while_true.
    destruct (grades_loop_frame i (S (length (stdin (mkWorld l rest out))))
                (mkWorld l rest out)) as (gs & Hgs & Hl).
    cbn [students stdin] in Hl |- *. cbv zeta.
    replace (students _) with (alter (extend gs) i l); [by apply step_grades|].
    rewrite <- Hl. by destruct (while_fuel _ _ _) as [w' [[]|e|]].
  - unfold add_grades_for_student. io_simpl. rewrite decide_False by done.
    io_simpl. rewrite find_student_strip, Hf. apply step_same.
Qed.

Lemma main_round_at l line rest out :
  main_round (mkWorld l (line :: rest) out) =
    menu_choice line (mkWorld l rest (out ++ [Menu])).
Proof. reflexivity. Qed.

Lemma main_round_eof l out :
  main_round (mkWorld l [] out) = (mkWorld l [] (out ++ [Menu]), Raise EOFError).
Proof. reflexivity. Qed.

Lemma main_round_step w : step (students w) (students (main_round w).1).
Proof.
  destruct w as [l [|line rest] out]; [apply step_same|].
  rewrite main_round_at. unfold menu_choice. cbn [students].
  destruct (Str.int (Str.strip line)) as [choice|]; [|apply step_same].
  destruct (decide (choice = 1)).
  { rewrite then_continue_students.
    apply (add_new_student_step (mkWorld l rest (out ++ [Menu]))). }
  destruct (decide (choice = 2)).
  { rewrite then_continue_students.
    apply (add_grades_step (mkWorld l rest (out ++ [Menu]))). }
  destruct (decide (choice = 3)).
  { rewrite then_continue_students, show_report_at. apply step_same. }
  destruct (decide (choice = 4)).
  { rewrite then_continue_students, find_top_performer_at. apply step_same. }
  destruct (decide (choice = 5)); apply step_same.
Qed.

(** What every step keeps, the menu loop keeps, whatever the fuel. *)
Lemma menu_loop_keeps (R : list Student → list Student → Prop) :
  (∀ l, R l l) → (∀ a b c, R a b → R b c → R a c) →
  (∀ a b, step a b → R a b) →
  ∀ fuel w, R (students w) (students (while_fuel fuel main_round w).1).
Proof.
  intros Hrefl Htrans Hstep. induction fuel as [|fuel IH]; intros w; [done|].
  rewrite while_fuel_S. pose proof (Hstep _ _ (main_round_step w)) as Hw.
  destruct (main_round w) as [w' [[]|e|]]; simpl in *; try done.
  by eapply Htrans.
Qed.

(** ** The registry the program builds *)

Lemma well_formed_step l l' : step l l' → well_formed l → well_formed l'.
Proof.
  intros Hstep [Hinv Hne]. destruct Hstep as [l|l raw Hraw Hf|l i gs Hgs].
  - done.
  - split.
    + pose proof (invariant_add_student l [raw] Hinv) as H.
      unfold run in H. rewrite add_new_student_at in H.
      rewrite decide_False in H by done.
      rewrite decide_False in H; [done|].
      intros Hex%find_student_is_Some. rewrite Hf in Hex. by destruct Hex.
    + apply Forall_app. split; [done|]. by repeat constructor.
  - split; [by apply invariant_alter_extend|].
    apply Forall_alter; [done|]. by intros [n g] _.
Qed.

Lemma well_formed_nil : well_formed [].
Proof. split; [split_and!|]; constructor. Qed.

Lemma menu_loop_well_formed fuel w :
  well_formed (students w) →
  well_formed (students (while_fuel fuel main_round w).1).
Proof.
  revert fuel w.
  apply (menu_loop_keeps (λ a b, well_formed a → well_formed b)); [auto..|].
  intros a b Hs. by apply well_formed_step.
Qed.

Lemma main_registry_well_formed lines : well_formed (students (main lines).1).
Proof. apply menu_loop_well_formed, well_formed_nil. Qed.

(** The menu loop from a well-formed registry ends well when it has fuel
    for the lines to read: every round ends well there, and leaves a
    well-formed registry. *)
Lemma menu_loop_ends_well : ∀ fuel w,
  well_formed (students w) → (length (stdin w) < fuel)%nat →
  ends_well (while_fuel fuel main_round w).2.
Proof.
  induction fuel as [|fuel IH]; intros w Hw Hfuel; [lia|].
  rewrite while_fuel_S.
  pose proof (main_round_ends_well w (proj1 (proj2 (proj1 Hw)))) as Hok.
  pose proof (well_formed_step _ _ (main_round_step w) Hw) as Hw'.
  destruct (main_round w) as [w' [[]|e|]] eqn:Eb; simpl in *; try done.
  apply IH; [done|]. apply main_round_continue in Eb. lia.
Qed.

(** The program on any input: it ends, by the choice 5 or by
    [EOFError] when the input ends before; the fuel of its loops is
    never used up and no other exception is raised. *)
Lemma main_ends_well lines : ends_well (main lines).2.
Proof. apply menu_loop_ends_well; [apply well_formed_nil|simpl; lia]. Qed.

(** X1: the menu loop keeps the registry well formed: from a registry
    whose names are stripped, not empty and pairwise different once
    normalized, and whose grades lie in [0, 100], it leaves such a
    registry, whatever the lines it reads and however it ends; so does the
    program, which starts from the empty registry. *)
Theorem main_well_formed :
  (∀ w, well_formed (students w) →
        well_formed (students (while_true main_round w).1))
  ∧ (∀ lines, well_formed (students (main lines).1)).
Proof.
  split.
  - intros w. apply menu_loop_well_formed.
  - apply main_registry_well_formed.
Qed.

Lemma main_well_formed_witness :
  well_formed [mkStudent "Ann" [50]]
  ∧ well_formed
      (students (while_true main_round
                   (mkWorld [mkStudent "Ann" [50]]
                      ["1"; " Bob "; "2"; "BOB"; "101"; "7"; "done"; "1"; "ann"]
                      [])).1).
Proof.
  assert (Hw : well_formed [mkStudent "Ann" [50]]).
  { split; [split_and!|]; repeat constructor; try lia; try discriminate.
    apply not_elem_of_nil. }
  split; [exact Hw|].
  exact (proj1 main_well_formed
           (mkWorld [mkStudent "Ann" [50]]
              ["1"; " Bob "; "2"; "BOB"; "101"; "7"; "done"; "1"; "ann"] []) Hw).
Defined.

(** In a well-formed registry the record that the lookup finds is the
    only one that matches. *)
Lemma well_formed_unique_match l q i s j s' :
  well_formed l → find_student l q = Some (i, s) →
  l !! j = Some s' → Str.lower (name s') = normalize q → j = i.
Proof.
  intros [(Hs & _ & Hn) _] Hf Hj Hq.
  pose proof (find_student_first l q) as Hm. rewrite Hf in Hm.
  destruct Hm as (Hi & HP & _). rewrite Forall_forall in Hs.
  eapply (NoDup_lookup _ j i (normalize q) Hn).
  - rewrite list_lookup_fmap, Hj. simpl. f_equal.
    rewrite normalize_stripped; [done|]. apply Hs. by eapply list_elem_of_lookup_2.
  - rewrite list_lookup_fmap, Hi. simpl. f_equal.
    rewrite normalize_stripped; [done|]. apply Hs. by eapply list_elem_of_lookup_2.
Qed.

(** X2: in the registry that the program holds at its end, on any
    input, a lookup is never ambiguous: when [find_student] finds a
    record, no record at another position has a name that matches the
    query. *)
Theorem main_lookup_unambiguous (lines : list string) (q : string)
    (i : nat) (s : Student) (j : nat) (s' : Student) :
  find_student (students (main lines).1) q = Some (i, s) →
  students (main lines).1 !! j = Some s' →
  Str.lower (name s') = normalize q →
  j = i.
Proof.
  apply well_formed_unique_match, main_registry_well_formed.
Qed.

Lemma main_lookup_unambiguous_witness :
  find_student (students (main ["1"; "Ann"; "1"; "Bob"]).1) " BOB " =
    Some (1%nat, mkStudent "Bob" [])
  ∧ students (main ["1"; "Ann"; "1"; "Bob"]).1 !! 1%nat =
      Some (mkStudent "Bob" [])
  ∧ Str.lower (name (mkStudent "Bob" [])) = normalize " BOB "
  ∧ 1%nat = 1%nat.
Proof.
  assert (Hf : find_student (students (main ["1"; "Ann"; "1"; "Bob"]).1) " BOB " =
               Some (1%nat, mkStudent "Bob" [])) by reflexivity.
  assert (Hj : students (main ["1"; "Ann"; "1"; "Bob"]).1 !! 1%nat =
               Some (mkStudent "Bob" [])) by reflexivity.
  assert (Hq : Str.lower (name (mkStudent "Bob" [])) = normalize " BOB ")
    by reflexivity.
  split_and!; [exact Hf | exact Hj | exact Hq |].
  exact (main_lookup_unambiguous _ _ _ _ _ _ Hf Hj Hq).
Defined.

(** ** What the menu loop keeps *)

Lemma keeps_refl l : keeps l l.
Proof. intros i s Hi. by exists s. Qed.

Lemma keeps_trans a b c : keeps a b → keeps b c → keeps a c.
Proof.
  intros Hab Hbc i s Hi.
  destruct (Hab i s Hi) as (s' & Hi' & Hn' & Hg').
  destruct (Hbc i s' Hi') as (s'' & Hi'' & Hn'' & Hg'').
  exists s''. split_and!; [done|congruence|by etrans].
Qed.

Lemma keeps_step a b : step a b → keeps a b.
Proof.
  intros [l|l raw _ _|l i gs _]; [apply keeps_refl| |]; intros j s Hj.
  - exists s. split_and!; [by apply lookup_app_l_Some|done..].
  - destruct (decide (i = j)) as [->|Hne].
    + exists (extend gs s). rewrite list_lookup_alter_eq, Hj.
      split_and!; [done..|]. by apply prefix_app_r.
    + exists s. by rewrite list_lookup_alter_ne.
Qed.

(** X3: the menu loop never removes, moves or renames a record and
    never drops or changes a grade: whatever the lines it reads, every
    record of the registry it starts from is at its position in the
    registry it leaves, under the same name, and its grades are the first
    grades of the record left. *)
Theorem menu_loop_keeps_records (w : World) :
  keeps (students w) (students (while_true main_round w).1).
Proof.
  unfold while_true.
  apply (menu_loop_keeps keeps);
    [apply keeps_refl | apply keeps_trans | apply keeps_step].
Qed.

Lemma menu_loop_keeps_records_witness :
  [mkStudent "Ann" [50]] !! 0%nat = Some (mkStudent "Ann" [50])
  ∧ ∃ s', students (while_true main_round
                      (mkWorld [mkStudent "Ann" [50]]
                         ["1"; "Bob"; "2"; "ANN"; "60"; "done"; "5"] [])).1
            !! 0%nat = Some s'
          ∧ name s' = "Ann" ∧ [50] `prefix_of` grades s'.
Proof.
  assert (Hi : [mkStudent "Ann" [50]] !! 0%nat = Some (mkStudent "Ann" [50]))
    by reflexivity.
  split; [exact Hi|].
  exact (menu_loop_keeps_records
           (mkWorld [mkStudent "Ann" [50]]
              ["1"; "Bob"; "2"; "ANN"; "60"; "done"; "5"] [])
           0%nat (mkStudent "Ann" [50]) Hi).
Defined.

Lemma keeps_lookup_refl l : keeps_lookup l l.
Proof. intros q i s Hf. by exists s. Qed.

Lemma keeps_lookup_trans a b c :
  keeps_lookup a b → keeps_lookup b c → keeps_lookup a c.
Proof.
  intros Hab Hbc q i s Hf.
  destruct (Hab q i s Hf) as (s' & Hf' & Hn').
  destruct (Hbc q i s' Hf') as (s'' & Hf'' & Hn'').
  exists s''. split; [done|congruence].
Qed.

(** The lookup after grades were added to the record at position [i]. *)
Lemma find_student_alter_extend l i gs q :
  find_student (alter (extend gs) i l) q =
    match find_student l q with
    | Some (j, s) => Some (j, if decide (i = j) then extend gs s else s)
    | None => None
    end.
Proof.
  destruct (find_student l q) as [[j s]|] eqn:Hf; simpl.
  - unfold find_student in *. apply list_find_Some in Hf as (Hj & HP & Hlt).
    apply list_find_Some. split_and!.
    + destruct (decide (i = j)) as [->|Hne].
      * by rewrite list_lookup_alter_eq, Hj.
      * by rewrite list_lookup_alter_ne.
    + by destruct (decide (i = j)).
    + intros k y Hk Hkj. rewrite list_lookup_alter in Hk.
      destruct (decide (i = k)) as [->|Hne].
      * destruct (l !! k) as [z|] eqn:Hz; [|done]. simpl in Hk.
        injection Hk as <-. simpl. by apply (Hlt k z).
      * by apply (Hlt k y).
  - unfold find_student in *. apply list_find_None.
    apply list_find_None in Hf. apply Forall_alter; [done|]. by intros [n g] _.
Qed.

Lemma keeps_lookup_step a b : step a b → keeps_lookup a b.
Proof.
  intros [l|l raw _ _|l i gs _]; [apply keeps_lookup_refl| |]; intros q j s Hf.
  - exists s. split; [|done]. unfold find_student in *. by apply list_find_app_l.
  - rewrite find_student_alter_extend, Hf. simpl.
    eexists. split; [done|]. by destruct (decide (i = j)).
Qed.

(** X4: a student that the lookup finds stays found: whatever the lines
    the menu loop reads, a query that [find_student] answers in the
    registry it starts from is answered in the registry it leaves by the
    record at the same position, under the same name. *)
Theorem menu_loop_keeps_lookup (w : World) :
  keeps_lookup (students w) (students (while_true main_round w).1).
Proof.
  unfold while_true.
  apply (menu_loop_keeps keeps_lookup);
    [apply keeps_lookup_refl | apply keeps_lookup_trans | apply keeps_lookup_step].
Qed.

Lemma menu_loop_keeps_lookup_witness :
  find_student [mkStudent "Ann" [50]] "ann" = Some (0%nat, mkStudent "Ann" [50])
  ∧ ∃ s', find_student
            (students (while_true main_round
                         (mkWorld [mkStudent "Ann" [50]]
                            ["1"; "Bob"; "2"; "ANN"; "60"; "done"] [])).1) "ann" =
            Some (0%nat, s')
          ∧ name s' = "Ann".
Proof.
  assert (Hf : find_student [mkStudent "Ann" [50]] "ann" =
               Some (0%nat, mkStudent "Ann" [50])) by reflexivity.
  split; [exact Hf|].
  exact (menu_loop_keeps_lookup
           (mkWorld [mkStudent "Ann" [50]] ["1"; "Bob"; "2"; "ANN"; "60"; "done"] [])
           "ann" 0%nat (mkStudent "Ann" [50]) Hf).
Defined.

(** X5: adding grades changes no answer of the lookup: after
    [add_grades_for_student], on any input, every query is answered as
    before, by the record at the same position under the same name, or by
    no record. *)
Theorem add_grades_same_lookup (l : list Student) (lines : list string)
    (q : string) :
  prod_map id name
    <$> find_student (students (run add_grades_for_student l lines).1) q =
  prod_map id name <$> find_student l q.
Proof.
  destruct (add_grades_students l lines) as (i & gs & _ & ->).
  rewrite find_student_alter_extend.
  destruct (find_student l q) as [[j s]|]; [|done]. simpl.
  by destruct (decide (i = j)).
Qed.

(** ** Adding a student and finding it *)

Lemma lower_nonempty s : Str.lower s = "" → s = "".
Proof. by destruct s. Qed.

Lemma find_student_None_not_Exists l n :
  find_student l n = None ↔ ¬ Exists (λ s, Str.lower (name s) = normalize n) l.
Proof.
  rewrite <- find_student_is_Some. apply eq_None_not_Some.
Qed.

(** X6: a student that was added is found under every spelling of its
    name: when the stripped name is not empty and the lookup does not
    find it, [add_new_student] leaves a registry in which every query
    with the same normalized form finds the new record, at the end of the
    registry, under the stripped name with no grades. *)
Theorem add_then_find (l : list Student) (raw : string)
    (rest : list string) (q : string) :
  Str.strip raw ≠ "" →
  find_student l raw = None →
  normalize q = normalize raw →
  find_student (students (run add_new_student l (raw :: rest)).1) q =
    Some (length l, mkStudent (Str.strip raw) []).
Proof.
  intros Hraw Hf Hq. unfold run. rewrite add_new_student_at.
  rewrite decide_False by done.
  rewrite decide_False by (by apply find_student_None_not_Exists).
  cbn [fst students]. unfold find_student in *. fold (normalize q) (normalize raw) in *.
  apply list_find_Some. split_and!.
  - by apply list_lookup_middle.
  - simpl. rewrite Hq. done.
  - intros j y Hj Hlt. rewrite lookup_app_l in Hj by done.
    apply list_find_None in Hf. rewrite Forall_forall in Hf.
    rewrite Hq. apply Hf. by eapply list_elem_of_lookup_2.
Qed.

Lemma add_then_find_witness :
  Str.strip " Bob " ≠ ""
  ∧ find_student [mkStudent "Ann" [50]] " Bob " = None
  ∧ normalize "BOB  " = normalize " Bob "
  ∧ find_student
      (students (run add_new_student [mkStudent "Ann" [50]] [" Bob "; "x"]).1)
      "BOB  " = Some (1%nat, mkStudent "Bob" []).
Proof.
  assert (H1 : Str.strip " Bob " ≠ "") by discriminate.
  assert (H2 : find_student [mkStudent "Ann" [50]] " Bob " = None) by reflexivity.
  assert (H3 : normalize "BOB  " = normalize " Bob ") by reflexivity.
  split_and!; [exact H1 | exact H2 | exact H3 |].
  exact (add_then_find [mkStudent "Ann" [50]] " Bob " ["x"] "BOB  " H1 H2 H3).
Defined.

(** X7: a name is added once: after [add_new_student] has read a name
    that is not empty once stripped, on any registry, a second
    [add_new_student] that reads a name with the same normalized form
    answers that the student already exists and leaves the registry as it
    is. *)
Theorem add_same_name_twice (l : list Student) (raw : string)
    (rest : list string) (raw2 : string) (rest2 : list string) :
  Str.strip raw ≠ "" →
  normalize raw2 = normalize raw →
  run add_new_student (students (run add_new_student l (raw :: rest)).1)
    (raw2 :: rest2) =
    (mkWorld (students (run add_new_student l (raw :: rest)).1) rest2
       [AlreadyExists (Str.strip raw2)], Return tt).
Proof.
  intros Hraw Hq. unfold run at 1. rewrite add_new_student_at.
  rewrite decide_False.
  2:{ intros H. apply Hraw, lower_nonempty. fold (normalize raw).
      rewrite <- Hq. unfold normalize. by rewrite H. }
  rewrite decide_True; [done|]. rewrite Hq.
  unfold run. rewrite add_new_student_at. rewrite decide_False by done.
  destruct (decide (Exists _ l)) as [Hex|Hex]; [done|].
  cbn [fst students]. apply Exists_app. right. by apply Exists_cons_hd.
Qed.

Lemma add_same_name_twice_witness :
  Str.strip " Bob " ≠ ""
  ∧ normalize "BOB" = normalize " Bob "
  ∧ run add_new_student
      (students (run add_new_student [mkStudent "Ann" [50]] [" Bob "; "x"]).1)
      ["BOB"; "y"] =
      (mkWorld [mkStudent "Ann" [50]; mkStudent "Bob" []] ["y"]
         [AlreadyExists "BOB"], Return tt).
Proof.
  assert (H1 : Str.strip " Bob " ≠ "") by discriminate.
  assert (H2 : normalize "BOB" = normalize " Bob ") by reflexivity.
  split_and!; [exact H1 | exact H2 |].
  exact (add_same_name_twice [mkStudent "Ann" [50]] " Bob " ["x"] "BOB" ["y"]
           H1 H2).
Defined.

(** ** The token loop when the input ends, and what it does with every token *)

Lemma grades_loop_eof i toks :
  Forall (λ t, ¬ is_done t) toks →
  ∀ fuel l out, (length toks < fuel)%nat →
  while_fuel fuel (read_grade i) (mkWorld l toks out) =
    (mkWorld (alter (extend (accepted toks)) i l) [] (out ++ rejections toks),
     Raise EOFError).
Proof.
  induction 1 as [|tok toks Htok _ IH]; intros [|fuel] l out Hfuel;
    simpl in Hfuel; try lia.
  - rewrite while_fuel_S, read_grade_eof. simpl.
    by rewrite alter_extend_nil, app_nil_r.
  - rewrite while_fuel_S, read_grade_step. rewrite decide_False by done.
    unfold accepted, rejections. simpl omap.
    fold (accepted toks) (rejections toks).
    destruct (judge tok) as [g| |]; simpl; rewrite IH by lia.
    + by rewrite alter_extend_extend.
    + by rewrite <- app_assoc.
    + by rewrite <- app_assoc.
Qed.

(** X8: when the input ends before the sentinel, the grades accepted so
    far stay: for a student that the lookup finds and tokens none of which
    is the sentinel, [add_grades_for_student] ends with [EOFError], the
    accepted tokens are in the student's grades, the rejections are
    printed, and the line that counts the grades added is not. *)
Theorem add_grades_input_ends (l : list Student) (line : string)
    (toks : list string) (i : nat) (s : Student) :
  find_student l line = Some (i, s) →
  Forall (λ t, ¬ is_done t) toks →
  run add_grades_for_student l (line :: toks) =
    (mkWorld (<[i := mkStudent (name s) (grades s ++ accepted toks)]> l) []
       (rejections toks), Raise EOFError).
Proof.
  intros Hf Htoks. destruct (find_student_lookup _ _ _ _ Hf) as (Hi & _ & _).
  unfold run. rewrite (add_grades_found _ _ _ _ _ _ Hf).
  unfold while_true. cbn [stdin].
  rewrite (grades_loop_eof i toks Htoks) by lia.
  cbn [fst snd app]. by rewrite (alter_insert_lookup _ _ _ _ Hi).
Qed.

Lemma add_grades_input_ends_witness :
  find_student [mkStudent "Ann" [70]] "ann" = Some (0%nat, mkStudent "Ann" [70])
  ∧ Forall (λ t, ¬ is_done t) ["80"; "x"; "90"]
  ∧ run add_grades_for_student [mkStudent "Ann" [70]] ["ann"; "80"; "x"; "90"] =
      (mkWorld [mkStudent "Ann" [70; 80; 90]] [] [InvalidNumber],
       Raise EOFError).
Proof.
  assert (Hf : find_student [mkStudent "Ann" [70]] "ann" =
               Some (0%nat, mkStudent "Ann" [70])) by reflexivity.
  assert (Ht : Forall (λ t, ¬ is_done t) ["80"; "x"; "90"])
    by (repeat constructor; discriminate).
  split_and!; [exact Hf | exact Ht |].
  exact (add_grades_input_ends _ "ann" _ _ _ Hf Ht).
Defined.

Lemma accepted_rejections_length toks :
  (length (accepted toks) + length (rejections toks) = length toks)%nat.
Proof.
  induction toks as [|tok toks IH]; [done|].
  unfold accepted, rejections, omap in *. simpl.
  destruct (judge tok); simpl; lia.
Qed.

(** X9: no token is dropped and none counts twice: for a student that
    the lookup finds and tokens that end with the sentinel, the grades
    that [add_grades_for_student] adds and the rejections it prints are
    together as many as the tokens before the sentinel; the one other
    line printed is the count. *)
Theorem add_grades_accounts_for_tokens (l : list Student) (line : string)
    (toks : list string) (d : string) (rest : list string)
    (i : nat) (s : Student) :
  find_student l line = Some (i, s) →
  Forall (λ t, ¬ is_done t) toks →
  is_done d →
  let w' := (run add_grades_for_student l (line :: toks ++ d :: rest)).1 in
  ∃ s' k,
    students w' !! i = Some s'
    ∧ last (stdout w') = Some (GradesUpdated (name s) k)
    ∧ (length (grades s') + length (stdout w')
       = length (grades s) + length toks + 1)%nat.
Proof.
  intros Hf Htoks Hd. destruct (find_student_lookup _ _ _ _ Hf) as (Hi & _ & _).
  unfold run. rewrite (add_grades_found _ _ _ _ _ _ Hf).
  unfold while_true. cbn [stdin].
  rewrite (grades_loop_done i toks d rest Htoks Hd) by (rewrite length_app; simpl; lia).
  cbn [fst snd students stdin stdout app].
  rewrite list_lookup_alter_eq, Hi. simpl.
  eexists _, _. split_and!; [done|by rewrite last_snoc|].
  unfold extend. cbn [grades]. rewrite !length_app. cbn [length].
  pose proof (accepted_rejections_length toks). lia.
Qed.

Lemma add_grades_accounts_for_tokens_witness :
  find_student [mkStudent "Ann" [70]] "ann" = Some (0%nat, mkStudent "Ann" [70])
  ∧ Forall (λ t, ¬ is_done t) ["80"; "x"; "900"]
  ∧ is_done " Done"
  ∧ (let w' := (run add_grades_for_student [mkStudent "Ann" [70]]
                  ["ann"; "80"; "x"; "900"; " Done"; "z"]).1 in
     ∃ s' k,
       students w' !! 0%nat = Some s'
       ∧ last (stdout w') = Some (GradesUpdated "Ann" k)
       ∧ Nat.add (length (grades s')) (length (stdout w')) = 5%nat).
Proof.
  assert (Hf : find_student [mkStudent "Ann" [70]] "ann" =
               Some (0%nat, mkStudent "Ann" [70])) by reflexivity.
  assert (Ht : Forall (λ t, ¬ is_done t) ["80"; "x"; "900"])
    by (repeat constructor; discriminate).
  assert (Hd : is_done " Done") by reflexivity.
  split_and!; [exact Hf | exact Ht | exact Hd |].
  exact (add_grades_accounts_for_tokens _ "ann" _ " Done" ["z"] _ _ Hf Ht Hd).
Defined.

(** ** How the program ends *)

Lemma then_continue_outcome (op : IO unit) w :
  ((op ;; mret Continue) w).2 ≠ Return Break
  ∧ (eof_at_end (op w) → eof_at_end ((op ;; mret Continue) w)).
Proof.
  unfold mbind, IO_bind, mret, IO_ret, eof_at_end.
  by destruct (op w) as [w' [[]|e|]].
Qed.

Lemma read_grade_eof_at_end i w : eof_at_end (read_grade i w).
Proof.
  destruct w as [l [|tok rest] out]; [by rewrite read_grade_eof|].
  rewrite read_grade_step. destruct (decide (is_done tok)); [done|].
  by destruct (judge tok).
Qed.

Lemma while_fuel_eof_at_end (body : IO ctl) :
  (∀ w, eof_at_end (body w)) → ∀ fuel w, eof_at_end (while_fuel fuel body w).
Proof.
  intros Hbody. induction fuel as [|fuel IH]; intros w; [done|].
  rewrite while_fuel_S. pose proof (Hbody w) as Hw. unfold eof_at_end in Hw.
  destruct (body w) as [w' [[]|e|]]; auto.
Qed.

Lemma add_new_student_eof_at_end w : eof_at_end (add_new_student w).
Proof.
  destruct w as [l [|raw rest] out]; [done|]. rewrite add_new_student_at.
  destruct (decide (Str.strip raw = "")); [done|].
  by destruct (decide (Exists _ l)).
Qed.

Lemma add_grades_eof_at_end w : eof_at_end (add_grades_for_student w).
Proof.
  destruct w as [l lines out].
  destruct (decide (l = [])) as [->|Hne]; [done|].
  destruct lines as [|line rest].
  { unfold add_grades_for_student. io_simpl. by rewrite decide_False. }
  destruct (find_student l line) as [[i s]|] eqn:Hf.
  - rewrite (add_grades_found _ _ _ _ _ _ Hf). cbv zeta.
    pose proof (while_fuel_eof_at_end (read_grade i) (read_grade_eof_at_end i)
                  (S (length rest)) (mkWorld l rest out)) as Hloop.
    unfold while_true. cbn [stdin]. unfold eof_at_end in *.
    by destruct (while_fuel _ _ _) as [w' [[]|e|]].
  - unfold add_grades_for_student. io_simpl. rewrite decide_False by done.
    io_simpl. by rewrite find_student_strip, Hf.
Qed.

(** A round of the menu ends the loop exactly on the choice 5, with the
    farewell as the last line printed. *)
Lemma menu_choice_break line w w' :
  menu_choice line w = (w', Return Break) ↔
  Str.int line = Some 5
  ∧ w' = mkWorld (students w) (stdin w) (stdout w ++ [Exiting]).
Proof.
  unfold menu_choice. rewrite int_strip.
  destruct (Str.int line) as [choice|]; [|split; [done|by intros [? _]]].
  destruct (decide (choice = 1)) as [->|].
  { split; [|by intros [? _]]. intros H.
    by destruct (proj1 (then_continue_outcome add_new_student w)); rewrite H. }
  destruct (decide (choice = 2)) as [->|].
  { split; [|by intros [? _]]. intros H.
    by destruct (proj1 (then_continue_outcome add_grades_for_student w));
      rewrite H. }
  destruct (decide (choice = 3)) as [->|].
  { split; [|by intros [? _]]. intros H.
    by destruct (proj1 (then_continue_outcome show_report w)); rewrite H. }
  destruct (decide (choice = 4)) as [->|].
  { split; [|by intros [? _]]. intros H.
    by destruct (proj1 (then_continue_outcome find_top_performer w)); rewrite H. }
  destruct (decide (choice = 5)) as [->|].
  - io_simpl. split; [by intros [= <-]|by intros [_ ->]].
  - io_simpl. split; [done|]. intros [[=] _]. done.
Qed.

Lemma eof_at_end_only {A} (r : World * outcome A) :
  eof_at_end r → eof_only_at_end r.
Proof.
  unfold eof_at_end, eof_only_at_end. intros H E. rewrite E in H. by destruct H.
Qed.

Lemma then_continue_eof_only (op : IO unit) w :
  eof_only_at_end (op w) → eof_only_at_end ((op ;; mret Continue) w).
Proof.
  unfold mbind, IO_bind, mret, IO_ret, eof_only_at_end.
  destruct (op w) as [w' [[]|e|]]; simpl; [done| |done].
  intros H [= ->]. by apply H.
Qed.

Lemma while_fuel_eof_only_at_end (body : IO ctl) :
  (∀ w, eof_only_at_end (body w)) →
  ∀ fuel w, eof_only_at_end (while_fuel fuel body w).
Proof.
  intros Hbody. induction fuel as [|fuel IH]; intros w; [done|].
  rewrite while_fuel_S. pose proof (Hbody w) as Hw.
  unfold eof_only_at_end in Hw |- *.
  destruct (body w) as [w' [[]|e|]]; simpl in *.
  all: try (intros [=]; fail).
  all: try apply IH.
  intros [= ->]. by apply Hw.
Qed.

(** [show_report] and [find_top_performer] read no line, so they never
    end with [EOFError]. *)
Lemma menu_choice_eof_at_end line w : eof_only_at_end (menu_choice line w).
Proof.
  unfold menu_choice.
  destruct (Str.int (Str.strip line)) as [choice|]; [|done].
  destruct (decide (choice = 1));
    [apply then_continue_eof_only, eof_at_end_only, add_new_student_eof_at_end|].
  destruct (decide (choice = 2));
    [apply then_continue_eof_only, eof_at_end_only, add_grades_eof_at_end|].
  destruct (decide (choice = 3)).
  { apply then_continue_eof_only. destruct w as [l lines out].
    rewrite show_report_at. unfold eof_only_at_end, float_outcome. simpl.
    by destruct (existsb overflows l). }
  destruct (decide (choice = 4)).
  { apply then_continue_eof_only. destruct w as [l lines out].
    rewrite find_top_performer_at. unfold eof_only_at_end, float_outcome. simpl.
    by destruct (existsb overflows l). }
  by destruct (decide (choice = 5)).
Qed.

Lemma main_round_eof_at_end w : eof_only_at_end (main_round w).
Proof.
  destruct w as [l [|line rest] out]; [done|].
  rewrite main_round_at. apply menu_choice_eof_at_end.
Qed.

Lemma menu_loop_returns fuel : ∀ w w',
  while_fuel fuel main_round w = (w', Return tt) →
  last (stdout w') = Some Exiting.
Proof.
  induction fuel as [|fuel IH]; intros w w'; [done|].
  rewrite while_fuel_S. destruct (main_round w) as [w1 [[]|e|]] eqn:Hr; try done.
  - apply IH.
  - intros [= <-]. destruct w as [l [|line rest] out]; [done|].
    rewrite main_round_at in Hr. apply menu_choice_break in Hr as [_ ->].
    simpl. by rewrite last_snoc.
Qed.

(** X10: the program has two ends.  On any input, either it returns,
    and then the last line it printed is the farewell of the choice 5, or
    it stops with [EOFError] when no line is left to read.  It raises no
    other exception: no [ValueError] from a line that is not a number, no
    [ZeroDivisionError] from a student without grades. *)
Theorem main_ends (lines : list string) :
  ((main lines).2 = Return tt ∧ last (stdout (main lines).1) = Some Exiting)
  ∨ ((main lines).2 = Raise EOFError ∧ stdin (main lines).1 = []).
Proof.
  pose proof (main_ends_well lines) as Hok.
  pose proof (while_fuel_eof_only_at_end main_round main_round_eof_at_end
                (S (length lines)) (mkWorld [] lines [])) as Heof.
  pose proof (menu_loop_returns (S (length lines)) (mkWorld [] lines [])) as Hret.
  unfold main, while_true, eof_only_at_end in *. cbn [stdin] in *.
  destruct (while_fuel _ _ _) as [w' [[]|e|]]; simpl in *.
  - left. split; [done|]. by apply Hret.
  - right. subst e. split; [done|]. by apply Heof.
  - done.
Qed.

(** X11: a round of the menu loop ends the loop only on the choice 5:
    for every registry and every line, the round that reads the line
    comes to [break] exactly when the line parses to 5. *)
Theorem main_round_break_iff (l : list Student) (line : string)
    (rest : list string) (out : list Out) :
  (main_round (mkWorld l (line :: rest) out)).2 = Return Break
  ↔ Str.int line = Some 5.
Proof.
  rewrite main_round_at. split.
  - destruct (menu_choice line _) as [w' o] eqn:Hm. simpl. intros ->.
    by apply menu_choice_break in Hm as [? _].
  - intros H5.
    by rewrite (proj2 (menu_choice_break line _ _) (conj H5 eq_refl)).
Qed.

Lemma main_round_break_iff_witness :
  Str.int " 5" = Some 5
  ∧ (main_round (mkWorld [mkStudent "Ann" []] [" 5"; "1"] [])).2 = Return Break
  ∧ (main_round (mkWorld [mkStudent "Ann" []] ["4"; "5"] [])).2 ≠ Return Break.
Proof.
  assert (H5 : Str.int " 5" = Some 5) by reflexivity.
  split_and!; [exact H5 | |].
  - exact (proj2 (main_round_break_iff [mkStudent "Ann" []] " 5" ["1"] []) H5).
  - intros Hb.
    pose proof (proj1 (main_round_break_iff [mkStudent "Ann" []] "4" ["5"] [])
                  Hb) as H4.
    discriminate H4.
Defined.

(** ** The report and the top performer together *)

Lemma first_max_fmap {A} (k : A → Q) (l : list A) : ∀ best,
  k (first_max k best l) = first_max id (k best) (k <$> l).
Proof.
  induction l as [|x r IH]; intros best; [done|].
  simpl. unfold id at 1 2. destruct (float_lt (k best) (k x)); apply IH.
Qed.

(** X12: the report and the top performer agree.  When some student
    has grades and every average fits a float, as it does when the grades
    are between 0 and 100, the average that [find_top_performer] prints
    for its student is the maximum average that [show_report] prints for
    the same registry.  When an average does not fit a float, both raise
    [OverflowError]. *)
Theorem top_average_is_max_average (l : list Student) (lines : list string) :
  (Exists (λ s, grades s ≠ []) l →
   existsb overflows l = false →
   ∃ n a,
     run find_top_performer l lines =
       (mkWorld l lines [TopStudent n a], Return tt)
     ∧ (run show_report l lines).2 = Return tt
     ∧ MaxAverage a ∈ stdout (run show_report l lines).1)
  ∧ (grades_in_range l → existsb overflows l = false)
  ∧ (existsb overflows l = true →
     (run find_top_performer l lines).2 = Raise OverflowError
     ∧ (run show_report l lines).2 = Raise OverflowError).
Proof.
  rewrite find_top_performer_run, show_report_run.
  unfold top_lines, float_outcome. split_and!.
  - intros Hex%with_grades_cons_iff Hov. rewrite Hov.
    rewrite report_output_aggregates by done. unfold top_output.
    rewrite decide_False by (by intros ->).
    destruct (with_grades l) as [|s r]; [done|]. cbv zeta.
    eexists _, _. split_and!; [done..|]. cbn [fst stdout].
    apply list_elem_of_further, elem_of_app. right.
    apply list_elem_of_further. rewrite first_max_fmap.
    apply list_elem_of_here.
  - apply grades_in_range_fits.
  - intros Hov. by rewrite Hov.
Qed.

Lemma top_average_is_max_average_witness :
  Exists (λ s, grades s ≠ [])
    [mkStudent "A" [70; 90]; mkStudent "N" []; mkStudent "B" [85]]
  ∧ existsb overflows
      [mkStudent "A" [70; 90]; mkStudent "N" []; mkStudent "B" [85]] = false
  ∧ ∃ n a,
      run find_top_performer
        [mkStudent "A" [70; 90]; mkStudent "N" []; mkStudent "B" [85]] [] =
        (mkWorld [mkStudent "A" [70; 90]; mkStudent "N" []; mkStudent "B" [85]]
           [] [TopStudent n a], Return tt)
      ∧ (run show_report
           [mkStudent "A" [70; 90]; mkStudent "N" []; mkStudent "B" [85]] []).2
        = Return tt
      ∧ MaxAverage a
        ∈ stdout (run show_report
                    [mkStudent "A" [70; 90]; mkStudent "N" []; mkStudent "B" [85]]
                    []).1.
Proof.
  assert (He : Exists (λ s, grades s ≠ [])
                 [mkStudent "A" [70; 90]; mkStudent "N" []; mkStudent "B" [85]])
    by (apply Exists_cons_hd; discriminate).
  assert (Hov : existsb overflows
                  [mkStudent "A" [70; 90]; mkStudent "N" []; mkStudent "B" [85]]
                = false) by (vm_compute; reflexivity).
  split; [exact He|]. split; [exact Hov|].
  exact (proj1 (top_average_is_max_average _ []) He Hov).
Defined.

(** X13: the report without grades.  On the empty registry
    [show_report] prints that there are no students to report.  On a
    registry in which no student has a grade it still prints one line per
    student, in registry order, each saying that the average is not
    available, then that no grades have been added yet; it prints no
    maximum, minimum or overall average. *)
Theorem show_report_without_grades (l : list Student) (lines : list string) :
  Forall (λ s, grades s = []) l →
  run show_report l lines =
    (mkWorld l lines
       (if decide (l = []) then [NoStudentsToReport]
        else ReportHeader :: ((λ s, AverageNA (name s)) <$> l)
               ++ [NoGradesYet; Rule]),
     Return tt).
Proof.
  intros Hall. pose proof (no_grades_fits l Hall) as Hov.
  rewrite show_report_run. unfold report_output, float_outcome. rewrite Hov.
  destruct (decide (l = [])); [done|].
  rewrite (proj2 (with_grades_nil l) Hall), report_lines_fits by done. simpl.
  assert (report_line <$> l = (λ s, AverageNA (name s)) <$> l) as ->; [|done].
  apply list_fmap_ext. intros i s Hi.
  rewrite Forall_forall in Hall. unfold report_line.
  by rewrite Hall by (by eapply list_elem_of_lookup_2).
Qed.

Lemma show_report_without_grades_witness :
  Forall (λ s, grades s = []) [mkStudent "Ann" []; mkStudent "Bob" []]
  ∧ run show_report [mkStudent "Ann" []; mkStudent "Bob" []] ["x"] =
      (mkWorld [mkStudent "Ann" []; mkStudent "Bob" []] ["x"]
         [ReportHeader; AverageNA "Ann"; AverageNA "Bob"; NoGradesYet; Rule],
       Return tt).
Proof.
  assert (Ha : Forall (λ s, grades s = []) [mkStudent "Ann" []; mkStudent "Bob" []])
    by (repeat constructor).
  split; [exact Ha|].
  exact (show_report_without_grades _ ["x"] Ha).
Defined.
